(** * hss3dump: identifier codec, version resolution and filesystem storer

    A shallow embedding of the Go sources [hsds_entity_type.go], [hsds_id.go],
    [main.go] (versionBefore) and of the filesystem storer (sanitizePath,
    createParentDomains, StoreDomain), together with the properties of the
    specification that concern them.

    Conventions.  A Go [byte] is a [Byte.byte]; a [[]byte] and the text of an
    identifier are [list byte]; a fixed array [[n]byte] is a [list byte] of
    length [n]; path names are [string]s.  A Go function returning
    [(v, error)] returns a pair [(v, option error)] here, a [nil] slice being
    the empty list. *)

From Stdlib Require Import ZArith NArith List Sorted Lia.
From Stdlib Require Import Strings.String Strings.Ascii Strings.Byte.
From stdpp Require Import base list gmap strings.

Local Open Scope string_scope.
Local Open Scope list_scope.

(** ** Errors of the program *)

Inductive error : Type :=
| errInvalidHSDSID                       (* "hsds: invalid HSDS UUID format" *)
| ErrInvalidUUID                         (* "hsds: HSDSD id has nil UUID" *)
| unknownEntityTypeError (Type_ : byte)  (* &unknownEntityTypeError{Type: t} *)
| pathError (path : string)              (* &pathError{path: name} *)
| ErrExist                               (* os.ErrExist *)
| ErrNotExist                            (* os.ErrNotExist *)
| ENOTDIR                                (* syscall.ENOTDIR *)
| EISDIR.                                (* syscall.EISDIR *)

(** ** Slices *)

(** [b[lo:hi]] for [lo <= hi <= len(b)]. *)
Definition slice {A} (b : list A) (lo hi : nat) : list A :=
  take (hi - lo) (drop lo b).

(** [copy(dst[i:], xs)] for [i + len(xs) <= len(dst)]: the elements of [xs]
    overwrite those of [dst] from index [i] on. *)
Fixpoint copy_at {A} (dst : list A) (i : nat) (xs : list A) : list A :=
  match xs with
  | [] => dst
  | x :: xs' => copy_at (<[i := x]> dst) (S i) xs'
  end.

(** [make([]byte, n)]. *)
Definition make (n : nat) : list byte := replicate n x00.

(** [[]byte(s)] and [string(b)]. *)
Definition bytes_of (s : string) : list byte := list_byte_of_string s.
Definition text_of (b : list byte) : string := string_of_list_byte b.

(** ** Package encoding/hex, as far as the program uses it *)

Module hex.

Definition hextable : list byte := bytes_of "0123456789abcdef".

(** [hextable[v>>4]] and [hextable[v&0x0f]]. *)
Definition hi (v : byte) : byte :=
  nth (N.to_nat (N.shiftr (Byte.to_N v) 4)) hextable x00.
Definition lo (v : byte) : byte :=
  nth (N.to_nat (N.land (Byte.to_N v) 15)) hextable x00.

(** [Encode(dst, src)]: the bytes written to [dst], two per byte of
    [src]. *)
Fixpoint Encode (src : list byte) : list byte :=
  match src with
  | [] => []
  | v :: src' => hi v :: lo v :: Encode src'
  end.

(** [fromHexChar]: the value of a hexadecimal digit, in either case. *)
Definition fromHexChar (c : byte) : option N :=
  let n := Byte.to_N c in
  if (48 <=? n)%N && (n <=? 57)%N then Some (n - 48)%N
  else if (97 <=? n)%N && (n <=? 102)%N then Some (n - 97 + 10)%N
  else if (65 <=? n)%N && (n <=? 70)%N then Some (n - 65 + 10)%N
  else None.

Inductive hexError : Type :=
| InvalidByteError (c : byte)
| ErrLength.

(** [(a << 4) | b] as a byte. *)
Definition join_nibbles (a b : N) : byte :=
  match Byte.of_N (N.lor (N.shiftl a 4) b) with
  | Some v => v
  | None => x00
  end.

(** [Decode(dst, src)]: the bytes written to [dst] and the error.  The
    bytes decoded before a bad digit or an odd tail stay written. *)
Fixpoint Decode (src : list byte) : list byte * option hexError :=
  match src with
  | [] => ([], None)
  | p :: [] =>
      match fromHexChar p with
      | None => ([], Some (InvalidByteError p))
      | Some _ => ([], Some ErrLength)
      end
  | p :: q :: src' =>
      match fromHexChar p, fromHexChar q with
      | None, _ => ([], Some (InvalidByteError p))
      | Some _, None => ([], Some (InvalidByteError q))
      | Some a, Some b =>
          let '(out, err) := Decode src' in
          (join_nibbles a b :: out, err)
      end
  end.

End hex.

(** ** hsds_entity_type.go *)

Module hsdsEntityType.

Definition entityTypeGroup : byte := "g"%byte.
Definition entityTypeDataset : byte := "d"%byte.
Definition entityTypeCommittedType : byte := "t"%byte.

Definition Valid (t : byte) : bool :=
  Byte.eqb t entityTypeGroup || Byte.eqb t entityTypeDataset
  || Byte.eqb t entityTypeCommittedType.

End hsdsEntityType.

(** ** hsds_id.go *)

Definition dash : byte := "-"%byte.

(** [for _, i := range idx { b[i] = '-' }] *)
Definition put_dashes (idx : list nat) (b : list byte) : list byte :=
  fold_left (fun b i => <[i := dash]> b) idx b.

(** [for i, j := range idx { hex.Encode(b[j:j+2], src[i:i+1]) }], the loop
    counter [i] starting from the given value. *)
Fixpoint encode_loop (idx : list nat) (i : nat) (src b : list byte) : list byte :=
  match idx with
  | [] => b
  | j :: idx' =>
      encode_loop idx' (S i) src (copy_at b j (hex.Encode (slice src i (S i))))
  end.

(** [for i, j := range idx { _, err := hex.Decode(dest[i:i+1], b[j:j+2]);
    if err != nil { return e } }]: the destination after the loop, and
    whether it returned early with [e]. *)
Fixpoint decode_loop (e : error) (idx : list nat) (i : nat)
    (dest b : list byte) : list byte * option error :=
  match idx with
  | [] => (dest, None)
  | j :: idx' =>
      let '(out, err) := hex.Decode (slice b j (j + 2)) in
      let dest' := copy_at dest i out in
      match err with
      | Some _ => (dest', Some e)
      | None => decode_loop e idx' (S i) dest' b
      end
  end.

(** [type hsdsID [17]byte]: a list of 17 bytes. *)
Definition hsdsID : Type := list byte.

Definition nilID : hsdsID := make 17.

Definition hsdsIDLen : nat := 38.
Definition hsdsIDDashIndeces : list nat := [1; 10; 19; 24; 31].
Definition hsdsByteIndices : list nat :=
  [2; 4; 6; 8; 11; 13; 15; 17; 20; 22; 25; 27; 29; 32; 34; 36].

(** [type hsdsPrefix [8]byte], [type hsdsSuffix [8]byte] and
    [type hsdsUUID [16]byte]. *)
Definition hsdsPrefix : Type := list byte.
Definition hsdsSuffix : Type := list byte.
Definition hsdsUUID : Type := list byte.

Module hsdsPrefix.

Definition prefixLen : nat := 17.

(** [func (p hsdsPrefix) String() string] *)
Definition String (p : hsdsPrefix) : list byte :=
  let b := make prefixLen in
  let b := copy_at b 0 (hex.Encode (slice p 0 4)) in
  let b := <[8 := dash]> b in
  let b := copy_at b 9 (hex.Encode (slice p 4 8)) in
  b.

End hsdsPrefix.

Module hsdsSuffix.

Definition suffixLen : nat := 18.

(** [func (s hsdsSuffix) String() string] *)
Definition String (s : hsdsSuffix) : list byte :=
  let b := make suffixLen in
  let b := copy_at b 0 (hex.Encode (slice s 0 2)) in
  let b := <[4 := dash]> b in
  let b := copy_at b 5 (hex.Encode (slice s 2 5)) in
  let b := <[11 := dash]> b in
  let b := copy_at b 12 (hex.Encode (slice s 5 8)) in
  b.

End hsdsSuffix.

Module hsdsUUID.

Definition uuidLen : nat := 36.
Definition uuidByteIndices : list nat :=
  [0; 2; 4; 6; 9; 11; 13; 15; 18; 20; 23; 25; 27; 30; 32; 34].
Definition uuidDashIndices : list nat := [8; 17; 22; 29].

(** [func (uuid hsdsUUID) String() string] *)
Definition String (uuid : hsdsUUID) : list byte :=
  let b := make uuidLen in
  let b := encode_loop uuidByteIndices 0 uuid b in
  put_dashes uuidDashIndices b.

(** [func (uuid hsdsUUID) MarshalText() ([]byte, error)] *)
Definition MarshalText (uuid : hsdsUUID) : list byte * option error :=
  (String uuid, None).

(** [for _, i := range uuidDashIndices { if b[i] != '-' { return
    ErrInvalidUUID } }]: [true] when the loop runs to its end. *)
Fixpoint dashes_ok (idx : list nat) (b : list byte) : bool :=
  match idx with
  | [] => true
  | i :: idx' =>
      if Byte.eqb (nth i b x00) dash then dashes_ok idx' b else false
  end.

(** [func (uuid *hsdsUUID) UnmarshalText(b []byte) error]: the receiver
    after the call, and the error. *)
Definition UnmarshalText (uuid : hsdsUUID) (b : list byte) :
    hsdsUUID * option error :=
  if negb (Nat.eqb (length b) uuidLen) then (uuid, Some ErrInvalidUUID)
  else if negb (dashes_ok uuidDashIndices b) then (uuid, Some ErrInvalidUUID)
  else decode_loop ErrInvalidUUID uuidByteIndices 0 uuid b.

End hsdsUUID.

Module hsdsID.

(** [func (id hsdsID) Type() hsdsEntityType] *)
Definition Type_ (id : hsdsID) : byte := nth 0 id x00.

(** [func (id hsdsID) String() string] *)
Definition String (id : hsdsID) : list byte :=
  let b := make hsdsIDLen in
  let b := <[0 := nth 0 id x00]> b in
  let src := slice id 1 17 in
  let b := encode_loop hsdsByteIndices 0 src b in
  put_dashes hsdsIDDashIndeces b.

(** [func (id hsdsID) MarshalText() ([]byte, error)] *)
Definition MarshalText (id : hsdsID) : list byte * option error :=
  let t := nth 0 id x00 in
  if negb (hsdsEntityType.Valid t) then ([], Some (unknownEntityTypeError t))
  else (String id, None).

(** [func (id *hsdsID) UnmarshalText(b []byte) error]: the receiver after
    the call, and the error.  [dest := id[1:]] aliases the receiver, so the
    bytes decoded before a failure stay written to it. *)
Definition UnmarshalText (id : hsdsID) (b : list byte) : hsdsID * option error :=
  if negb (Nat.eqb (length b) hsdsIDLen) then (id, Some errInvalidHSDSID)
  else
    let t := nth 0 b x00 in
    if negb (hsdsEntityType.Valid t) then (id, Some (unknownEntityTypeError t))
    else
      let id := <[0 := nth 0 b x00]> id in
      let '(dest, err) :=
        decode_loop errInvalidHSDSID hsdsByteIndices 0 (slice id 1 17) b in
      (copy_at id 1 dest, err).

(** [func (id hsdsID) Prefix() hsdsPrefix]: [copy(p[:], id[1:9])]. *)
Definition Prefix (id : hsdsID) : hsdsPrefix :=
  copy_at (make 8) 0 (slice id 1 9).

(** [func (id hsdsID) Suffix() hsdsSuffix]: [copy(s[:], id[9:])]. *)
Definition Suffix (id : hsdsID) : hsdsSuffix :=
  copy_at (make 8) 0 (slice id 9 17).

(** [func (id hsdsID) UUID() hsdsUUID]: [copy(uuid[:], id[1:])]. *)
Definition UUID (id : hsdsID) : hsdsUUID :=
  copy_at (make 16) 0 (slice id 1 17).

End hsdsID.

(** [func ParseID(id string) (hsdsID, error)] *)
Definition ParseID (id : string) : hsdsID * option error :=
  let newID := make 17 in
  let '(newID, err) := hsdsID.UnmarshalText newID (bytes_of id) in
  match err with
  | Some e => (nilID, Some e)
  | None => (newID, None)
  end.

(** The identifier of the tests, [validGroupID]. *)
Definition validGroupID : hsdsID :=
  [ "g"%byte; xd1; x2a; x20; xa5; x6c; x27; x62; x2f;
    x59; xa2; xa8; x2d; xe4; xaf; xea; xa7 ].
Definition validGroupIDString : string :=
  "g-d12a20a5-6c27622f-59a2-a82de4-afeaa7".


(** ** Package time, as far as the program uses it *)

Module time.

Inductive Location : Type := UTC | Local_ | Fixed (offset : Z).

(** A [time.Time]: an instant, counted in nanoseconds from January 1,
    year 1, 00:00:00 UTC, shown in a location. *)
Record Time : Type := { instant : Z; loc : Location }.

(** [t.IsZero()]: [t] is the zero instant, whatever its location. *)
Definition IsZero (t : Time) : bool := (instant t =? 0)%Z.

(** [t.Equal(u)] and [t.Before(u)] compare instants. *)
Definition Equal (t u : Time) : bool := (instant t =? instant u)%Z.
Definition Before (t u : Time) : bool := (instant t <? instant u)%Z.

(** [t.Local()]: the same instant, shown in local time. *)
Definition Local (t : Time) : Time := {| instant := instant t; loc := Local_ |}.

End time.

(** ** hsds_domain.go *)

Module hsdsVersion.

Record t : Type := { ID : string; LastModified : time.Time; Size : Z }.

End hsdsVersion.

Record hsdsPermissions : Type := {
  Create : bool; Read : bool; Update : bool; Delete : bool;
  ReadACL : bool; UpdateACL : bool }.

(** A [float64] is carried as its IEEE 754 bit pattern: the program copies
    these values and never computes with them. *)
Definition float64 : Type := Z.

Module hsdsDomain.

Record t : Type := {
  ACLs : gmap string hsdsPermissions;
  Root : option hsdsID;                (* *hsdsID, nil when absent *)
  Owner : string;
  Created : float64;
  LastModified : float64 }.

(** [parent := *domain; parent.Root = nil] *)
Definition clear_Root (d : t) : t :=
  {| ACLs := ACLs d; Root := None; Owner := Owner d;
     Created := Created d; LastModified := LastModified d |}.

End hsdsDomain.

(** ** main.go: versionBefore *)

(** A call either returns or panics. *)
Inductive outcome (A : Type) : Type :=
| Returns (a : A)
| Panics (msg : string).
Arguments Returns {A} a.
Arguments Panics {A} msg.

(** [for _, version := range availableVersions { lm :=
    version.LastModified.Local(); if lm.Equal(notAfter) ||
    lm.Before(notAfter) { return version.ID } }]: the identifier returned
    from inside the loop, if any. *)
Fixpoint scan_versions (availableVersions : list hsdsVersion.t)
    (notAfter : time.Time) : option string :=
  match availableVersions with
  | [] => None
  | version :: rest =>
      let lm := time.Local (hsdsVersion.LastModified version) in
      if time.Equal lm notAfter || time.Before lm notAfter
      then Some (hsdsVersion.ID version)
      else scan_versions rest notAfter
  end.

(** [func versionBefore(availableVersions []*hsdsVersion, notAfter
    time.Time) string] *)
Definition versionBefore (availableVersions : list hsdsVersion.t)
    (notAfter : time.Time) : outcome string :=
  if Nat.eqb (length availableVersions) 0
  then Panics "versionBefore: no versions available"
  else if time.IsZero notAfter
  then match availableVersions !! 0 with
       | Some v => Returns (hsdsVersion.ID v)
       | None => Panics "index out of range"
       end
  else match scan_versions availableVersions notAfter with
       | Some id => Returns id
       | None =>
           match availableVersions !! (length availableVersions - 1) with
           | Some v => Returns (hsdsVersion.ID v)
           | None => Panics "index out of range"
           end
       end.

(** ** Package path/filepath on Unix, as far as the program uses it *)

Module filepath.

(** [strings.Split(s, sep)] for a separator of one character: never
    empty, [Split("", sep)] is [[""]]. *)
Fixpoint split_sep (s : string) (sep : ascii) : list string :=
  match s with
  | EmptyString => [EmptyString]
  | String c s' =>
      if Ascii.eqb c sep then EmptyString :: split_sep s' sep
      else match split_sep s' sep with
           | [] => [String c EmptyString]
           | h :: t => String c h :: t
           end
  end.

(** [strings.Join(elems, sep)]. *)
Definition join_sep (elems : list string) (sep : string) : string :=
  String.concat sep elems.

(** One element [e] of the path is read by [Clean]; [out] holds the
    elements written so far, the last one first.  An empty element and
    [.] are dropped; [..] removes the element before it, is dropped at the
    root of a rooted path, and is kept at the front of a path that is not
    rooted. *)
Definition clean_step (rooted : bool) (out : list string) (e : string) :
    list string :=
  if String.eqb e "" then out
  else if String.eqb e "." then out
  else if String.eqb e ".." then
    match out with
    | top :: out' =>
        if String.eqb top ".." then e :: out else out'
    | [] => if rooted then out else e :: out
    end
  else e :: out.

Definition clean_elems (rooted : bool) (elems : list string) : list string :=
  rev (fold_left (clean_step rooted) elems []).

(** [os.IsPathSeparator(path[0])], for a path that may be empty. *)
Definition is_rooted (path : string) : bool :=
  match path with
  | String c _ => Ascii.eqb c "/"
  | EmptyString => false
  end.

(** [filepath.Clean(path)]: the elements kept by the scan, after the
    separator when the path is rooted, or [.] when nothing is written. *)
Definition Clean (path : string) : string :=
  let rooted := is_rooted path in
  let out := clean_elems rooted (split_sep path "/") in
  let s := (if rooted then "/" else "") +:+ join_sep out "/" in
  if String.eqb s "" then "." else s.

(** [filepath.Join(elem...)]: the elements from the first non-empty one
    on, joined by the separator and cleaned. *)
Fixpoint Join (elem : list string) : string :=
  match elem with
  | [] => ""
  | e :: elem' =>
      if String.eqb e "" then Join elem' else Clean (join_sep elem "/")
  end.

(** [filepath.Split(path)]: the path is cut after its last separator. *)
Fixpoint Split (path : string) : string * string :=
  match path with
  | EmptyString => ("", "")
  | String c path' =>
      let '(dir, file) := Split path' in
      if String.eqb dir "" then
        if Ascii.eqb c "/" then (String c "", file) else ("", String c file)
      else (String c dir, file)
  end.

(** [filepath.SplitList(path)]: a list of paths as in [$PATH], cut at the
    list separator [:]. *)
Definition SplitList (path : string) : list string :=
  if String.eqb path "" then [] else split_sep path ":".

(** [filepath.FromSlash(path)]: the separator is the slash already. *)
Definition FromSlash (path : string) : string := path.

(** [filepath.Dir(path)]. *)
Definition Dir (path : string) : string := Clean (fst (Split path)).

End filepath.

(** ** The filesystem, and package os as far as the program uses it *)

(** A name is bound to a directory or to a regular file.  The storer only
    writes JSON documents of domains, so a file holds the sequence of
    documents encoded to it. *)
Inductive node : Type :=
| Dir
| File (docs : list hsdsDomain.t).

(** The filesystem binds cleaned path names to nodes; a relative name is
    relative to the working directory.  No symbolic links. *)
Abbreviation filesystem := (gmap string node).

Module os.

(** [os.Stat]: the root directory and the working directory always
    exist. *)
Definition Stat (fs : filesystem) (p : string) : option node :=
  if String.eqb p "/" || String.eqb p "." then Some Dir else fs !! p.

(** The path and the directories above it, the outermost first:
    [ancestors_from "" "/srv/a"] is [["/srv"; "/srv/a"]]. *)
Fixpoint ancestors_from (acc s : string) : list string :=
  match s with
  | EmptyString => [acc]
  | String c s' =>
      if Ascii.eqb c "/" && negb (String.eqb acc "")
      then acc :: ancestors_from (acc +:+ "/") s'
      else ancestors_from (acc +:+ String c "") s'
  end.

(** The directories of [ps] are made from the outermost on; one that is
    there already is kept, a regular file in the way is an error. *)
Fixpoint mkdirs (ps : list string) (fs : filesystem) :
    filesystem * option error :=
  match ps with
  | [] => (fs, None)
  | p :: ps' =>
      match Stat fs p with
      | Some Dir => mkdirs ps' fs
      | Some (File _) => (fs, Some ENOTDIR)
      | None => mkdirs ps' (<[p := Dir]> fs)
      end
  end.

(** [os.MkdirAll(path, perm)]. *)
Definition MkdirAll (path : string) (fs : filesystem) :
    filesystem * option error :=
  mkdirs (ancestors_from "" (filepath.Clean path)) fs.

(** [os.OpenFile(name, os.O_CREATE|os.O_WRONLY|flag, 0644)] where [flag]
    is [os.O_EXCL] ([excl = true]) or [os.O_TRUNC] ([excl = false]): the
    open file (its name) or the error. *)
Definition OpenFile (name : string) (excl : bool) (fs : filesystem) :
    filesystem * (string + error) :=
  let p := filepath.Clean name in
  match Stat fs (filepath.Dir p) with
  | None => (fs, inr ErrNotExist)
  | Some (File _) => (fs, inr ENOTDIR)
  | Some Dir =>
      match Stat fs p with
      | Some Dir => (fs, inr (if excl then ErrExist else EISDIR))
      | Some (File _) =>
          if excl then (fs, inr ErrExist) else (<[p := File []]> fs, inl p)
      | None => (<[p := File []]> fs, inl p)
      end
  end.

End os.

(** [json.NewEncoder(f).Encode(v)] for a domain [v] whose timestamps are
    finite: the document is appended to the file. *)
Definition json_Encode (f : string) (v : hsdsDomain.t) (fs : filesystem) :
    filesystem :=
  match fs !! f with
  | Some (File docs) => <[f := File (docs ++ [v])]> fs
  | _ => fs
  end.

(** ** The filesystem storer *)

Module filesystemHSDSStorer.

Record t : Type := { Root : string }.

End filesystemHSDSStorer.

(** [func sanitizePath(root, name string) (string, error)] *)
Definition sanitizePath (root name : string) : string * option error :=
  let name := filepath.Join ["/"; filepath.FromSlash name] in
  if String.eqb name "/" then ("", Some (pathError name))
  else
    let name := filepath.Join [root; name] in
    (name, None).

(** [func openForWriting(root, name string) (io.WriteCloser, error)] *)
Definition openForWriting (root name : string) (fs : filesystem) :
    filesystem * (string + error) :=
  let '(name, err) := sanitizePath root name in
  match err with
  | Some e => (fs, inr e)
  | None => os.OpenFile name false fs
  end.

(** The loop of [createParentDomains]:
    [for _, subDir := range parentDirs { dn = filepath.Join(dn, subDir,
    ".domain.json"); f, err := os.OpenFile(dn, ...|os.O_EXCL, 0644); ... }].
    [dn] is assigned in the loop and so carried from one round to the
    next. *)
Fixpoint parent_loop (parentDirs : list string) (dn : string)
    (parent : hsdsDomain.t) (fs : filesystem) : filesystem * option error :=
  match parentDirs with
  | [] => (fs, None)
  | subDir :: rest =>
      let dn := filepath.Join [dn; subDir; ".domain.json"] in
      let '(fs, r) := os.OpenFile dn true fs in
      match r with
      | inr ErrExist => parent_loop rest dn parent fs      (* continue *)
      | inr e => (fs, Some e)
      | inl f => parent_loop rest dn parent (json_Encode f parent fs)
      end
  end.

(** [func createParentDomains(root, name string, domain *hsdsDomain) error] *)
Definition createParentDomains (root name : string) (domain : hsdsDomain.t)
    (fs : filesystem) : filesystem * option error :=
  let name := filepath.Clean name in
  if String.eqb name "." then (fs, None)
  else
    let '(dirName, err) := sanitizePath root name in
    match err with
    | Some e => (fs, Some e)
    | None =>
        let '(fs, err) := os.MkdirAll dirName fs in
        match err with
        | Some e => (fs, Some e)
        | None =>
            let '(parentDir, _) := filepath.Split name in
            let parentDirs := filepath.SplitList parentDir in
            let parent := hsdsDomain.clear_Root domain in
            let dn := root in
            parent_loop parentDirs dn parent fs
        end
    end.

(** [func (s *filesystemHSDSStorer) StoreDomain(ctx, name string, domain
    *hsdsDomain) error].  The error of [openForWriting] is overwritten
    unread; when the open fails [f] is nil and [Encode] panics on it. *)
Definition StoreDomain (s : filesystemHSDSStorer.t) (name : string)
    (domain : hsdsDomain.t) (fs : filesystem) :
    outcome (filesystem * option error) :=
  let '(fs, err) := createParentDomains (filesystemHSDSStorer.Root s) name domain fs in
  match err with
  | Some e => Returns (fs, Some e)
  | None =>
      let name := filepath.Join [name; ".domain.json"] in
      let '(fs, r) := openForWriting (filesystemHSDSStorer.Root s) name fs in
      match r with
      | inr _ => Panics "invalid memory address or nil pointer dereference"
      | inl f => Returns (json_Encode f domain fs, None)
      end
  end.

(** ** Notions of the specification *)

(** A hexadecimal digit, in either case. *)
Definition is_hex_digit (c : byte) : bool :=
  let n := Byte.to_N c in
  ((48 <=? n)%N && (n <=? 57)%N) || ((97 <=? n)%N && (n <=? 102)%N)
  || ((65 <=? n)%N && (n <=? 70)%N).

(** The byte that the two digits at offsets [j] and [j+1] of [b] stand
    for. *)
Definition hex_value (c : byte) : N :=
  match hex.fromHexChar c with Some a => a | None => 0%N end.
Definition decode_at (b : list byte) (j : nat) : byte :=
  hex.join_nibbles (hex_value (nth j b x00)) (hex_value (nth (S j) b x00)).

(** The versions are sorted by their time of last modification, the newest
    first. *)
Definition newest_first (vs : list hsdsVersion.t) : Prop :=
  StronglySorted
    (fun a b => (time.instant (hsdsVersion.LastModified b)
                 <= time.instant (hsdsVersion.LastModified a))%Z) vs.

(** [v] is newer than the cutoff. *)
Definition newer_than (notAfter : time.Time) (v : hsdsVersion.t) : Prop :=
  (time.instant notAfter < time.instant (hsdsVersion.LastModified v))%Z.

(** The elements of a path name, read from the left, are followed from the
    root of the store at depth 0: an empty element and [.] stay, [..] goes
    up, any other element goes down.  [None] when the walk leaves the
    root. *)
Fixpoint walk (depth : nat) (elems : list string) : option nat :=
  match elems with
  | [] => Some depth
  | e :: rest =>
      if String.eqb e "" || String.eqb e "." then walk depth rest
      else if String.eqb e ".." then
        match depth with
        | 0 => None
        | S d => walk d rest
        end
      else walk (S depth) rest
  end.

(** The name escapes the root, and the name resolves to the root itself. *)
Definition escapes_root (name : string) : Prop :=
  walk 0 (filepath.split_sep name "/") = None.
Definition resolves_to_root (name : string) : Prop :=
  walk 0 (filepath.split_sep name "/") = Some 0.

(** The call fails with a path error. *)
Definition is_pathError (r : string * option error) : Prop :=
  exists p, snd r = Some (pathError p).

(** An element of a path that names an entry of a directory: not empty,
    neither [.] nor [..], without a separator. *)
Fixpoint no_separator (s : string) : bool :=
  match s with
  | EmptyString => true
  | String c s' => negb (Ascii.eqb c "/") && no_separator s'
  end.
Definition plain (e : string) : Prop :=
  e <> "" /\ e <> "." /\ no_separator e = true.
Definition ordinary (e : string) : Prop := plain e /\ e <> "..".

(** The path [rel], made of ordinary elements, below the directory [root].
    An empty [root] is no element for [filepath.Join], which leaves the path
    rooted. *)
Definition below (root rel : string) : string :=
  if String.eqb root "" then "/" +:+ rel
  else
    let r := filepath.Clean root in
    if String.eqb r "/" then "/" +:+ rel
    else if String.eqb r "." then rel
    else r +:+ "/" +:+ rel.

(** Sample data: a time given by its instant, and three versions of an
    object, the newest first. *)
Definition at_instant (n : Z) : time.Time :=
  {| time.instant := n; time.loc := time.Local_ |}.
Definition version (id : string) (lastModified size : Z) : hsdsVersion.t :=
  {| hsdsVersion.ID := id;
     hsdsVersion.LastModified := {| time.instant := lastModified; time.loc := time.UTC |};
     hsdsVersion.Size := size |}.
Definition versions3 : list hsdsVersion.t :=
  [version "V3" 30 0; version "V2" 20 1296; version "V1" 10 7].

(** A storer rooted at [/srv] and a domain with a root group. *)
Definition sampleStorer : filesystemHSDSStorer.t :=
  {| filesystemHSDSStorer.Root := "/srv" |}.
Definition sampleDomain : hsdsDomain.t :=
  {| hsdsDomain.ACLs := ∅; hsdsDomain.Root := Some validGroupID;
     hsdsDomain.Owner := "admin";
     hsdsDomain.Created := 0%Z; hsdsDomain.LastModified := 0%Z |}.

(** The filesystem after a call that returned without an error, and what
    the name [p] is bound to in it: [Some None] when the call returned
    without an error and [p] is not bound. *)
Definition stored (r : outcome (filesystem * option error)) : option filesystem :=
  match r with
  | Returns (fs, None) => Some fs
  | _ => None
  end.
Definition node_after (r : outcome (filesystem * option error)) (p : string) :
    option (option node) :=
  match stored r with
  | Some fs => Some (fs !! p)
  | None => None
  end.

(** ** Further code of hsds_id.go *)

(** [func MustParseID(id string) hsdsID]: [inl i] when it returns [i],
    [inr err] when it panics with the error [err]. *)
Definition MustParseID (id : string) : hsdsID + error :=
  let '(i, err) := ParseID id in
  match err with
  | Some e => inr e
  | None => inl i
  end.

(** The two bytes at the offsets [j] and [j+1] are hexadecimal digits, in
    either case, and in lower case as [hex.Encode] writes them. *)
Definition is_lower_hex_digit (c : byte) : bool :=
  let n := Byte.to_N c in
  ((48 <=? n)%N && (n <=? 57)%N) || ((97 <=? n)%N && (n <=? 102)%N).
Definition hex_at (b : list byte) (j : nat) : bool :=
  is_hex_digit (nth j b x00) && is_hex_digit (nth (S j) b x00).
Definition lower_hex_at (b : list byte) (j : nat) : bool :=
  is_lower_hex_digit (nth j b x00) && is_lower_hex_digit (nth (S j) b x00).

(** The texts that [hsdsID.UnmarshalText] accepts: 38 bytes, a valid type
    byte, two hexadecimal digits at each offset of [hsdsByteIndices]. *)
Definition accepted_text (b : list byte) : Prop :=
  length b = 38
  /\ hsdsEntityType.Valid (nth 0 b x00) = true
  /\ Forall (fun j => hex_at b j = true) hsdsByteIndices.

(** ** Further code of hsds_domain.go *)

(** Package path: [path.Join] joins its elements with slashes and cleans
    the result, as [filepath.Join] does on Unix. *)
Module path.

Definition Join (elem : list string) : string := filepath.Join elem.

End path.

(** [func (d *hsdsDomain) Prefix() hsdsPrefix] and
    [func (d *hsdsDomain) Suffix() hsdsSuffix]: [d.Root] is dereferenced,
    which panics when it is nil. *)
Definition hsdsDomain_Prefix (d : hsdsDomain.t) : outcome hsdsPrefix :=
  match hsdsDomain.Root d with
  | Some root => Returns (hsdsID.Prefix root)
  | None => Panics "invalid memory address or nil pointer dereference"
  end.
Definition hsdsDomain_Suffix (d : hsdsDomain.t) : outcome hsdsSuffix :=
  match hsdsDomain.Root d with
  | Some root => Returns (hsdsID.Suffix root)
  | None => Panics "invalid memory address or nil pointer dereference"
  end.

(** [func (d *hsdsDomain) DatabasePrefix() string] *)
Definition DatabasePrefix (d : hsdsDomain.t) : outcome string :=
  match hsdsDomain_Prefix d with
  | Returns p => Returns (path.Join ["db"; text_of (hsdsPrefix.String p)])
  | Panics msg => Panics msg
  end.

(** ** Notions for the storer *)

(** From [fs] to [fs'] every entry of [fs] is kept as it is, and every
    entry that is new satisfies [P]. *)
Definition only_adds {V : Type} (P : V -> Prop) (fs fs' : gmap string V) : Prop :=
  fs ⊆ fs' /\ forall q n, fs !! q = None -> fs' !! q = Some n -> P n.

(** A directory, or the marker written for the domain [d]. *)
Definition dir_or_marker (d : hsdsDomain.t) (n : node) : Prop :=
  n = Dir \/ n = File [hsdsDomain.clear_Root d].

(** The name under which [StoreDomain] writes the document of the domain
    [name]. *)
Definition domain_document (root name : string) : string :=
  filepath.Clean
    (fst (sanitizePath root (filepath.Join [name; ".domain.json"]))).

Definition domain_store_after : filesystem :=
  Eval vm_compute in
    match StoreDomain sampleStorer "home/domain.h5" sampleDomain ∅ with
    | Returns (fs, _) => fs
    | Panics _ => ∅
    end.
Definition document_store : filesystem :=
  {[ "/srv" := Dir; "/srv/a.json" := File [sampleDomain] ]}.
Definition document_store_after : filesystem :=
  Eval vm_compute in fst (openForWriting "/srv" "a.json" document_store).

(** ** The domain loader: LoadDomainVersions *)

(** [t.After(u)]. *)
Definition time_After (t u : time.Time) : bool :=
  (time.instant u <? time.instant t)%Z.

(** An element of [output.Versions], the answer of [ListObjectVersions]:
    the fields the loader reads, after [aws.ToString] and [aws.ToTime]. *)
Module ObjectVersion.

Record t : Type := {
  Key : string; VersionId : string; LastModified : time.Time; Size : Z }.

End ObjectVersion.

(** [&hsdsVersion{ID: aws.ToString(version.VersionId), LastModified:
    aws.ToTime(version.LastModified), Size: version.Size}] *)
Definition version_of (version : ObjectVersion.t) : hsdsVersion.t :=
  {| hsdsVersion.ID := ObjectVersion.VersionId version;
     hsdsVersion.LastModified := ObjectVersion.LastModified version;
     hsdsVersion.Size := ObjectVersion.Size version |}.

(** The first loop of [LoadDomainVersions]: every version is appended to
    the versions of its key. *)
Definition collect_versions (output_Versions : list ObjectVersion.t) :
    gmap string (list hsdsVersion.t) :=
  fold_left
    (fun versions version =>
       let key := ObjectVersion.Key version in
       let vv := match versions !! key with
                 | Some vv => vv
                 | None => []            (* make([]*hsdsVersion, 0, 1) *)
                 end in
       <[key := vv ++ [version_of version]]> versions)
    output_Versions ∅.

(** The function [less] given to [sort.Slice]:
    [ovs[i].LastModified.After(ovs[j].LastModified)]. *)
Definition newer (a b : hsdsVersion.t) : bool :=
  time_After (hsdsVersion.LastModified a) (hsdsVersion.LastModified b).

Section LoadDomainVersions.

(** [sort.Slice] is not stable and its algorithm is not fixed: it is a
    parameter, known to permute its argument so that no element is less
    than one before it. *)
Variable sort_Slice :
  (hsdsVersion.t -> hsdsVersion.t -> bool) -> list hsdsVersion.t ->
  list hsdsVersion.t.
Hypothesis sort_Slice_permutes : forall less l, sort_Slice less l ≡ₚ l.
Hypothesis sort_Slice_sorts : forall l,
  StronglySorted (fun a b => newer b a = false) (sort_Slice newer l).

(** [func (l *s3HSDSDomainLoader) LoadDomainVersions(ctx, domain)
    (map[string][]*hsdsVersion, error)], from the answer of
    [ListObjectVersions] on. *)
Definition LoadDomainVersions (output_Versions : list ObjectVersion.t) :
    gmap string (list hsdsVersion.t) :=
  sort_Slice newer <$> collect_versions output_Versions.

End LoadDomainVersions.

(** The versions listed for the key [key], in the order of the answer. *)
Definition versions_of (key : string) (output_Versions : list ObjectVersion.t) :
    list hsdsVersion.t :=
  map version_of
    (List.filter (fun version => String.eqb (ObjectVersion.Key version) key)
       output_Versions).

(** A sort by insertion, one of the functions [sort.Slice] may be. *)
Fixpoint insert_sorted (less : hsdsVersion.t -> hsdsVersion.t -> bool)
    (v : hsdsVersion.t) (l : list hsdsVersion.t) : list hsdsVersion.t :=
  match l with
  | [] => [v]
  | w :: l' => if less w v then w :: insert_sorted less v l' else v :: l
  end.
Definition insertion_sort (less : hsdsVersion.t -> hsdsVersion.t -> bool)
    (l : list hsdsVersion.t) : list hsdsVersion.t :=
  fold_right (insert_sorted less) [] l.

(** The answer for the object of the manual: two versions, listed with the
    older one first, and a version of another object. *)
Definition sample_output : list ObjectVersion.t :=
  [ {| ObjectVersion.Key := "db/x/0"; ObjectVersion.VersionId := "U9LG";
       ObjectVersion.LastModified := at_instant 500; ObjectVersion.Size := 1296 |};
    {| ObjectVersion.Key := "db/x/.group.json"; ObjectVersion.VersionId := "sQwX";
       ObjectVersion.LastModified := at_instant 1001; ObjectVersion.Size := 1056 |};
    {| ObjectVersion.Key := "db/x/0"; ObjectVersion.VersionId := "HikS";
       ObjectVersion.LastModified := at_instant 1000; ObjectVersion.Size := 0 |} ].

(** ** The filesystem storer: StoreObject *)

(** The objects of a domain are files of bytes.  [StoreObject] is modelled
    on a filesystem whose regular files hold bytes; the calls of package os
    are those of the storer of domains, on these files. *)
Inductive entry : Type :=
| Directory
| Bytes (data : list byte).

Abbreviation object_store := (gmap string entry).

Module osb.

Definition Stat (fs : object_store) (p : string) : option entry :=
  if String.eqb p "/" || String.eqb p "." then Some Directory else fs !! p.

Fixpoint mkdirs (ps : list string) (fs : object_store) :
    object_store * option error :=
  match ps with
  | [] => (fs, None)
  | p :: ps' =>
      match Stat fs p with
      | Some Directory => mkdirs ps' fs
      | Some (Bytes _) => (fs, Some ENOTDIR)
      | None => mkdirs ps' (<[p := Directory]> fs)
      end
  end.

(** [os.MkdirAll(path, perm)]. *)
Definition MkdirAll (path : string) (fs : object_store) :
    object_store * option error :=
  mkdirs (os.ancestors_from "" (filepath.Clean path)) fs.

(** [os.OpenFile(name, os.O_CREATE|os.O_WRONLY|os.O_TRUNC, 0644)]. *)
Definition OpenFile (name : string) (fs : object_store) :
    object_store * (string + error) :=
  let p := filepath.Clean name in
  match Stat fs (filepath.Dir p) with
  | None => (fs, inr ErrNotExist)
  | Some (Bytes _) => (fs, inr ENOTDIR)
  | Some Directory =>
      match Stat fs p with
      | Some Directory => (fs, inr EISDIR)
      | _ => (<[p := Bytes []]> fs, inl p)
      end
  end.

(** [f.Write(data)] on a device that takes the data: the bytes are
    appended to the file. *)
Definition Write (f : string) (data : list byte) (fs : object_store) :
    object_store :=
  match fs !! f with
  | Some (Bytes old) => <[f := Bytes (old ++ data)]> fs
  | _ => fs
  end.

End osb.

(** [openForWriting], on files of bytes. *)
Definition openForWriting_object (root name : string) (fs : object_store) :
    object_store * (string + error) :=
  let '(name, err) := sanitizePath root name in
  match err with
  | Some e => (fs, inr e)
  | None => osb.OpenFile name fs
  end.

(** [func (s *filesystemHSDSStorer) StoreObject(ctx, name string, data
    []byte) error] *)
Definition StoreObject (s : filesystemHSDSStorer.t) (name : string)
    (data : list byte) (fs : object_store) : object_store * option error :=
  let '(dir, err) := sanitizePath (filesystemHSDSStorer.Root s) name in
  match err with
  | Some e => (fs, Some e)
  | None =>
      let '(dir, _) := filepath.Split dir in
      let '(fs, err) := osb.MkdirAll dir fs in
      match err with
      | Some e => (fs, Some e)
      | None =>
          let '(fs, r) :=
            openForWriting_object (filesystemHSDSStorer.Root s) name fs in
          match r with
          | inr e => (fs, Some e)
          | inl f => (osb.Write f data fs, None)
          end
      end
  end.

(** The name under which [StoreObject] writes the object [name]. *)
Definition object_file (root name : string) : string :=
  filepath.Clean (fst (sanitizePath root name)).

(** A store with the object of the manual, in its first version. *)
Definition object_store_before : object_store :=
  Eval vm_compute in
    fst (StoreObject sampleStorer "db/e32b60a5-6c27622f/d/693e-302825-f8c087/0"
           (bytes_of "first version") {[ "/srv" := Directory ]}).
Definition object_store_after : object_store :=
  Eval vm_compute in
    fst (StoreObject sampleStorer "db/e32b60a5-6c27622f/d/693e-302825-f8c087/0"
           (bytes_of "second") object_store_before).



Arguments hex.hi : simpl never.
Arguments hex.lo : simpl never.

(** * Properties *)

(** ** The codec on the identifier of the tests *)

Example String_validGroupID :
  text_of (hsdsID.String validGroupID) = validGroupIDString.
Proof. reflexivity. Qed.

Example ParseID_validGroupID : ParseID validGroupIDString = (validGroupID, None).
Proof. reflexivity. Qed.

Example UUID_String_validGroupID :
  text_of (hsdsUUID.String (hsdsID.UUID validGroupID))
  = "d12a20a5-6c27622f-59a2-a82de4-afeaa7".
Proof. reflexivity. Qed.

Example Prefix_Suffix_validGroupID :
  text_of (hsdsPrefix.String (hsdsID.Prefix validGroupID)) = "d12a20a5-6c27622f"
  /\ text_of (hsdsSuffix.String (hsdsID.Suffix validGroupID)) = "59a2-a82de4-afeaa7".
Proof. split; reflexivity. Qed.

(** ** Hexadecimal digits *)

Lemma Decode_Encode_byte v : hex.Decode [hex.hi v; hex.lo v] = ([v], None).
Proof. destruct v; reflexivity. Qed.

Lemma fromHexChar_digit c :
  is_hex_digit c = true -> hex.fromHexChar c = Some (hex_value c).
Proof. destruct c; intros H; try discriminate H; reflexivity. Qed.

Lemma fromHexChar_not_digit c :
  is_hex_digit c = false -> hex.fromHexChar c = None.
Proof. destruct c; intros H; try discriminate H; reflexivity. Qed.

Lemma bytes_of_text_of b : bytes_of (text_of b) = b.
Proof. apply list_byte_of_string_of_list_byte. Qed.

Lemma Valid_cases t :
  hsdsEntityType.Valid t = true ->
  t = "g"%byte \/ t = "d"%byte \/ t = "t"%byte.
Proof. destruct t; intros H; try discriminate H; auto. Qed.

Lemma Valid_false t :
  t <> "g"%byte -> t <> "d"%byte -> t <> "t"%byte ->
  hsdsEntityType.Valid t = false.
Proof. intros Hg Hd Ht. destruct t; try reflexivity; congruence. Qed.

(** ** The decoding loop *)

Lemma slice_pair (b : list byte) j :
  S j < length b -> slice b j (j + 2) = [nth j b x00; nth (S j) b x00].
Proof.
  unfold slice. replace (j + 2 - j) with 2 by lia.
  revert b. induction j as [|j IH]; intros b Hlen.
  - destruct b as [|p [|q b]]; simpl in Hlen; try lia. reflexivity.
  - destruct b as [|p b]; simpl in Hlen; try lia.
    simpl. apply IH. lia.
Qed.

(** A round of the loop over two digits that encode [v] writes [v]. *)
Lemma decode_loop_step e j idx i dest b v :
  slice b j (j + 2) = [hex.hi v; hex.lo v] ->
  decode_loop e (j :: idx) i dest b
  = decode_loop e idx (S i) (<[i := v]> dest) b.
Proof.
  intros H. cbn [decode_loop]. rewrite H, Decode_Encode_byte. reflexivity.
Qed.

(** Over hexadecimal digits the loop runs to its end and writes the bytes
    they stand for. *)
Lemma decode_loop_digits e idx : forall i dest b,
  Forall (fun j => S j < length b
                   /\ is_hex_digit (nth j b x00) = true
                   /\ is_hex_digit (nth (S j) b x00) = true) idx ->
  decode_loop e idx i dest b = (copy_at dest i (map (decode_at b) idx), None).
Proof.
  induction idx as [|j idx IH]; intros i dest b Hall.
  - reflexivity.
  - inversion Hall as [|? ? (Hlen & Hp & Hq) Hrest]; subst.
    cbn [decode_loop map copy_at].
    rewrite slice_pair by exact Hlen.
    cbn [hex.Decode].
    rewrite (fromHexChar_digit _ Hp), (fromHexChar_digit _ Hq).
    cbn [copy_at]. apply IH. exact Hrest.
Qed.

(** The loop reads [b] at the offsets of [idx] only. *)
Lemma decode_loop_ext e idx : forall i dest b b',
  Forall (fun j => slice b j (j + 2) = slice b' j (j + 2)) idx ->
  decode_loop e idx i dest b = decode_loop e idx i dest b'.
Proof.
  induction idx as [|j idx IH]; intros i dest b b' Hall.
  - reflexivity.
  - inversion Hall as [|? ? Hj Hrest]; subst.
    cbn [decode_loop]. rewrite Hj.
    destruct (hex.Decode (slice b' j (j + 2))) as [out [err|]].
    + reflexivity.
    + apply IH. exact Hrest.
Qed.

(** ** Parsing and formatting identifiers *)

Lemma copy_at_length {A} (xs : list A) : forall dst i,
  length (copy_at dst i xs) = length dst.
Proof.
  induction xs as [|x xs IH]; intros dst i; cbn [copy_at].
  - reflexivity.
  - rewrite IH. apply length_insert.
Qed.

Lemma encode_loop_length idx : forall i src b,
  length (encode_loop idx i src b) = length b.
Proof.
  induction idx as [|j idx IH]; intros i src b; cbn [encode_loop].
  - reflexivity.
  - rewrite IH. apply copy_at_length.
Qed.

Lemma put_dashes_length idx : forall b, length (put_dashes idx b) = length b.
Proof.
  unfold put_dashes.
  induction idx as [|i idx IH]; intros b; cbn [fold_left].
  - reflexivity.
  - rewrite IH. apply length_insert.
Qed.

(** The text of an identifier has 38 bytes. *)
Lemma String_length id : length (hsdsID.String id) = 38.
Proof.
  unfold hsdsID.String.
  rewrite put_dashes_length, encode_loop_length, length_insert.
  reflexivity.
Qed.

(** Parsing the text of an identifier into any receiver gives the
    identifier back. *)
Lemma UnmarshalText_String id id0 :
  length id = 17 -> length id0 = 17 ->
  hsdsEntityType.Valid (hsdsID.Type_ id) = true ->
  hsdsID.UnmarshalText id0 (hsdsID.String id) = (id, None).
Proof.
  intros Hl Hl0 Hv.
  do 18 (destruct id as [|? id]; try discriminate Hl).
  do 18 (destruct id0 as [|? id0]; try discriminate Hl0).
  unfold hsdsID.Type_ in Hv. cbn in Hv.
  unfold hsdsID.UnmarshalText, hsdsID.String.
  cbn -[decode_loop]. rewrite Hv. cbn -[decode_loop].
  unfold hsdsByteIndices.
  repeat (erewrite decode_loop_step by reflexivity).
  reflexivity.
Qed.

(** C5.  For every identifier of 17 bytes whose type byte is valid,
    formatting succeeds with a text of 38 bytes, and parsing that text,
    with [ParseID] or with [UnmarshalText] into any receiver, gives the
    identifier back: Parse(Format(id)) = id. *)
Theorem Parse_Format_roundtrip (id : hsdsID) :
  length id = 17 ->
  hsdsEntityType.Valid (hsdsID.Type_ id) = true ->
  exists text,
    hsdsID.MarshalText id = (text, None)
    /\ length text = 38
    /\ ParseID (text_of text) = (id, None)
    /\ forall id0, length id0 = 17 -> hsdsID.UnmarshalText id0 text = (id, None).
Proof.
  intros Hl Hv. exists (hsdsID.String id). repeat split.
  - unfold hsdsID.MarshalText. unfold hsdsID.Type_ in Hv. rewrite Hv. reflexivity.
  - apply String_length.
  - unfold ParseID. rewrite bytes_of_text_of.
    rewrite (UnmarshalText_String id (make 17) Hl eq_refl Hv). reflexivity.
  - intros id0 Hl0. apply UnmarshalText_String; assumption.
Qed.

Lemma Parse_Format_roundtrip_witness :
  exists text,
    hsdsID.MarshalText validGroupID = (text, None)
    /\ length text = 38
    /\ ParseID (text_of text) = (validGroupID, None)
    /\ forall id0, length id0 = 17 ->
       hsdsID.UnmarshalText id0 text = (validGroupID, None).
Proof.
  apply (Parse_Format_roundtrip validGroupID); reflexivity.
Defined.

(** C1.  [UnmarshalText] never reads the bytes at the offsets 1, 10, 19, 24
    and 31: the identifier of the tests with [X] in the place of every dash
    is parsed without an error, to the same identifier. *)
Theorem ParseID_accepts_missing_dashes :
  ParseID "gXd12a20a5X6c27622fX59a2Xa82de4Xafeaa7" = (validGroupID, None).
Proof. reflexivity. Qed.

(** The result of [UnmarshalText] does not depend on the byte at a dash
    offset, for any text of 38 bytes. *)
Lemma UnmarshalText_ignores_dash_offsets id0 (b : list byte) i c :
  length b = 38 -> In i hsdsIDDashIndeces ->
  hsdsID.UnmarshalText id0 (<[i := c]> b) = hsdsID.UnmarshalText id0 b.
Proof.
  intros Hl Hi.
  do 39 (destruct b as [|? b]; try discriminate Hl).
  unfold hsdsID.UnmarshalText.
  assert (Hsl : Forall (fun j =>
            slice (<[i := c]> [b0; b1; b2; b3; b4; b5; b6; b7; b8; b9; b10; b11;
              b12; b13; b14; b15; b16; b17; b18; b19; b20; b21; b22; b23; b24;
              b25; b26; b27; b28; b29; b30; b31; b32; b33; b34; b35; b36; b37])
              j (j + 2)
            = slice [b0; b1; b2; b3; b4; b5; b6; b7; b8; b9; b10; b11;
              b12; b13; b14; b15; b16; b17; b18; b19; b20; b21; b22; b23; b24;
              b25; b26; b27; b28; b29; b30; b31; b32; b33; b34; b35; b36; b37]
              j (j + 2)) hsdsByteIndices).
  { unfold hsdsIDDashIndeces in Hi. cbn [In] in Hi.
    decompose [or] Hi; subst; try contradiction;
      repeat constructor. }
  rewrite (decode_loop_ext _ _ _ _ _ _ Hsl).
  rewrite length_insert.
  unfold hsdsIDDashIndeces in Hi. cbn [In] in Hi.
  decompose [or] Hi; subst; try contradiction; reflexivity.
Qed.

(** C7.  Parsing the text of the tests with the type byte [x] fails with
    the unknown-type error carrying [x]; formatting an identifier whose type
    byte is [x] fails with the same error; and parsing any text of 38 bytes
    whose first byte is none of [g], [d], [t] fails with the unknown-type
    error carrying that byte. *)
Theorem unknown_entity_type :
  ParseID "x-d12a20a5-6c27622f-59a2-a82de4-afeaa7"
    = (nilID, Some (unknownEntityTypeError "x"%byte))
  /\ (forall id : hsdsID,
        length id = 17 -> hsdsID.Type_ id = "x"%byte ->
        hsdsID.MarshalText id = ([], Some (unknownEntityTypeError "x"%byte)))
  /\ (forall (s : string) (t : byte),
        length (bytes_of s) = 38 -> bytes_of s !! 0 = Some t ->
        t <> "g"%byte -> t <> "d"%byte -> t <> "t"%byte ->
        ParseID s = (nilID, Some (unknownEntityTypeError t))
        /\ forall id0, hsdsID.UnmarshalText id0 (bytes_of s)
                       = (id0, Some (unknownEntityTypeError t))).
Proof.
  split; [reflexivity|]. split.
  - intros id _ Ht. unfold hsdsID.MarshalText.
    unfold hsdsID.Type_ in Ht. rewrite Ht. reflexivity.
  - intros s t Hl H0 Hg Hd Ht.
    assert (Hu : forall id0, hsdsID.UnmarshalText id0 (bytes_of s)
                             = (id0, Some (unknownEntityTypeError t))).
    { intros id0. unfold hsdsID.UnmarshalText. rewrite Hl. cbn [Nat.eqb negb hsdsIDLen].
      destruct (bytes_of s) as [|t' b]; [discriminate H0|].
      injection H0 as ->. cbn [nth].
      rewrite (Valid_false t Hg Hd Ht). reflexivity. }
    split; [|exact Hu].
    unfold ParseID. rewrite Hu. reflexivity.
Qed.

Lemma unknown_entity_type_witness :
  hsdsID.MarshalText ("x"%byte :: make 16)
    = ([], Some (unknownEntityTypeError "x"%byte))
  /\ ParseID "?-d12a20a5-6c27622f-59a2-a82de4-afeaa7"
    = (nilID, Some (unknownEntityTypeError "?"%byte)).
Proof.
  destruct unknown_entity_type as (_ & Hm & Hp). split.
  - apply Hm; reflexivity.
  - apply (Hp "?-d12a20a5-6c27622f-59a2-a82de4-afeaa7" "?"%byte);
      first [reflexivity | discriminate].
Defined.

(** C9.  Whenever [ParseID] returns an error it returns [nilID] with it,
    also when [UnmarshalText] had written part of the identifier to its
    receiver before it failed. *)
Theorem ParseID_error_nilID (s : string) (id : hsdsID) (e : error) :
  ParseID s = (id, Some e) -> id = nilID.
Proof.
  unfold ParseID.
  destruct (hsdsID.UnmarshalText (make 17) (bytes_of s)) as [newID [e'|]];
    intros H; inversion H; reflexivity.
Qed.

(** A text whose sixth pair of digits is not hexadecimal: the receiver of
    [UnmarshalText] keeps the type byte and the five bytes decoded before
    the failure. *)
Example UnmarshalText_partial :
  hsdsID.UnmarshalText (make 17)
    (bytes_of "g-d12a20a5-6cZZ622f-59a2-a82de4-afeaa7")
  = ("g"%byte :: xd1 :: x2a :: x20 :: xa5 :: x6c :: make 11,
     Some errInvalidHSDSID).
Proof. reflexivity. Qed.

Lemma ParseID_error_nilID_witness :
  ParseID "g-d12a20a5-6cZZ622f-59a2-a82de4-afeaa7" = (nilID, Some errInvalidHSDSID)
  /\ nilID = nilID.
Proof.
  split; [reflexivity|].
  apply (ParseID_error_nilID "g-d12a20a5-6cZZ622f-59a2-a82de4-afeaa7"
           nilID errInvalidHSDSID).
  reflexivity.
Defined.

(** C10.  The text of an identifier is its type byte, a dash and the text
    of its UUID; the text of the UUID is the text of the prefix, a dash and
    the text of the suffix. *)
Theorem String_decomposes (id : hsdsID) :
  length id = 17 ->
  hsdsID.String id
    = hsdsID.Type_ id :: dash :: hsdsUUID.String (hsdsID.UUID id)
  /\ hsdsUUID.String (hsdsID.UUID id)
    = hsdsPrefix.String (hsdsID.Prefix id)
      ++ dash :: hsdsSuffix.String (hsdsID.Suffix id).
Proof.
  intros Hl.
  do 18 (destruct id as [|? id]; try discriminate Hl).
  split; reflexivity.
Qed.

Lemma String_decomposes_witness :
  hsdsID.String validGroupID
    = hsdsID.Type_ validGroupID :: dash
      :: hsdsUUID.String (hsdsID.UUID validGroupID)
  /\ hsdsUUID.String (hsdsID.UUID validGroupID)
    = hsdsPrefix.String (hsdsID.Prefix validGroupID)
      ++ dash :: hsdsSuffix.String (hsdsID.Suffix validGroupID).
Proof. apply (String_decomposes validGroupID). reflexivity. Defined.

(** ** Parsing the text of a UUID *)

Lemma dashes_ok_false idx (b : list byte) i :
  In i idx -> nth i b x00 <> dash -> hsdsUUID.dashes_ok idx b = false.
Proof.
  induction idx as [|k idx IH]; intros Hin Hne; [contradiction|].
  cbn [hsdsUUID.dashes_ok].
  destruct (Byte.eqb (nth k b x00) dash) eqn:Hk; [|reflexivity].
  destruct Hin as [->|Hin].
  - apply Byte.byte_dec_bl in Hk. contradiction.
  - apply IH; assumption.
Qed.

Lemma dashes_ok_true idx (b : list byte) :
  Forall (fun i => nth i b x00 = dash) idx -> hsdsUUID.dashes_ok idx b = true.
Proof.
  induction 1 as [|k idx Hk _ IH]; cbn [hsdsUUID.dashes_ok]; [reflexivity|].
  rewrite Hk. cbn. exact IH.
Qed.

(** C8.  [hsdsUUID.UnmarshalText] rejects a text whose length is not 36 and
    a text of 36 bytes with another byte than a dash at one of the offsets
    8, 17, 22, 29, leaving its receiver as it was; a text of 36 bytes with
    dashes at these offsets and hexadecimal digits at all the others is
    parsed without an error, to the 16 bytes the digits stand for. *)
Theorem UUID_UnmarshalText_checks (uuid : hsdsUUID) (b : list byte) :
  (length b <> 36 ->
     hsdsUUID.UnmarshalText uuid b = (uuid, Some ErrInvalidUUID))
  /\ (length b = 36 ->
      (exists i, In i hsdsUUID.uuidDashIndices /\ nth i b x00 <> dash) ->
      hsdsUUID.UnmarshalText uuid b = (uuid, Some ErrInvalidUUID))
  /\ (length b = 36 -> length uuid = 16 ->
      Forall (fun i => nth i b x00 = dash) hsdsUUID.uuidDashIndices ->
      Forall (fun j => is_hex_digit (nth j b x00) = true
                       /\ is_hex_digit (nth (S j) b x00) = true)
             hsdsUUID.uuidByteIndices ->
      hsdsUUID.UnmarshalText uuid b
      = (map (decode_at b) hsdsUUID.uuidByteIndices, None)).
Proof.
  unfold hsdsUUID.UnmarshalText, hsdsUUID.uuidLen. repeat split.
  - intros Hl. apply Nat.eqb_neq in Hl. rewrite Hl. reflexivity.
  - intros Hl (i & Hin & Hne). rewrite Hl. cbn [Nat.eqb negb].
    rewrite (dashes_ok_false _ _ _ Hin Hne). reflexivity.
  - intros Hl Hu Hd Hx. rewrite Hl. cbn [Nat.eqb negb].
    rewrite (dashes_ok_true _ _ Hd). cbn [negb].
    rewrite decode_loop_digits.
    + do 17 (destruct uuid as [|? uuid]; try discriminate Hu). reflexivity.
    + unfold hsdsUUID.uuidByteIndices in *.
      repeat match goal with
             | H : Forall _ (_ :: _) |- _ => inversion H; clear H; subst
             end.
      rewrite Hl. repeat constructor; try tauto; lia.
Qed.

Lemma UUID_UnmarshalText_checks_witness :
  hsdsUUID.UnmarshalText (make 16) (bytes_of "d12a20a5-6c27622f-59a2")
    = (make 16, Some ErrInvalidUUID)
  /\ hsdsUUID.UnmarshalText (make 16)
       (bytes_of "d12a20a5-6c27622f+59a2-a82de4-afeaa7")
    = (make 16, Some ErrInvalidUUID)
  /\ hsdsUUID.UnmarshalText (make 16)
       (bytes_of "D12A20a5-6c27622f-59a2-a82de4-afeaa7")
    = (hsdsID.UUID validGroupID, None).
Proof.
  destruct (UUID_UnmarshalText_checks (make 16)
              (bytes_of "d12a20a5-6c27622f-59a2")) as (H1 & _ & _).
  destruct (UUID_UnmarshalText_checks (make 16)
              (bytes_of "d12a20a5-6c27622f+59a2-a82de4-afeaa7")) as (_ & H2 & _).
  destruct (UUID_UnmarshalText_checks (make 16)
              (bytes_of "D12A20a5-6c27622f-59a2-a82de4-afeaa7")) as (_ & _ & H3).
  split; [|split].
  - apply H1. discriminate.
  - apply H2; [reflexivity|]. exists 17. split; [cbn; tauto | discriminate].
  - rewrite H3; [reflexivity | reflexivity | reflexivity | |];
      repeat constructor.
Defined.

(** ** Selecting a version *)

(** The test of the loop, decided on the instants. *)
Ltac compare_instants :=
  unfold newer_than, time.Equal, time.Before, time.Local in *;
  cbn [time.instant] in *;
  repeat match goal with
         | |- context [Z.eqb ?a ?b] => destruct (Z.eqb_spec a b)
         | |- context [Z.ltb ?a ?b] => destruct (Z.ltb_spec a b)
         end;
  cbn [orb]; try lia.

Lemma scan_versions_first pre v post notAfter :
  Forall (newer_than notAfter) pre ->
  (time.instant (hsdsVersion.LastModified v) <= time.instant notAfter)%Z ->
  scan_versions (pre ++ v :: post) notAfter = Some (hsdsVersion.ID v).
Proof.
  induction 1 as [|u pre Hu _ IH]; intros Hv; cbn [app scan_versions].
  - compare_instants; reflexivity.
  - compare_instants. apply IH. exact Hv.
Qed.

Lemma scan_versions_none vs notAfter :
  Forall (newer_than notAfter) vs -> scan_versions vs notAfter = None.
Proof.
  induction 1 as [|u vs Hu _ IH]; cbn [scan_versions]; [reflexivity|].
  compare_instants. exact IH.
Qed.

Lemma scan_versions_none_inv vs notAfter :
  scan_versions vs notAfter = None -> Forall (newer_than notAfter) vs.
Proof.
  induction vs as [|u vs IH]; cbn [scan_versions]; [constructor|].
  destruct (time.Equal (time.Local (hsdsVersion.LastModified u)) notAfter
            || time.Before (time.Local (hsdsVersion.LastModified u)) notAfter)
    eqn:Htest; [discriminate|].
  intros H. constructor; [|apply IH; exact H].
  revert Htest. compare_instants; discriminate.
Qed.

(** In a sequence sorted with the newest first, the version found by the
    scan is the newest of those last modified at the cutoff or before it. *)
Lemma scan_versions_newest vs notAfter id :
  newest_first vs ->
  scan_versions vs notAfter = Some id ->
  exists v, In v vs /\ hsdsVersion.ID v = id
    /\ (time.instant (hsdsVersion.LastModified v) <= time.instant notAfter)%Z
    /\ forall u, In u vs ->
         (time.instant (hsdsVersion.LastModified u) <= time.instant notAfter)%Z ->
         (time.instant (hsdsVersion.LastModified u)
          <= time.instant (hsdsVersion.LastModified v))%Z.
Proof.
  unfold newest_first.
  induction 1 as [|w vs Hsorted IH Hw]; cbn [scan_versions]; [discriminate|].
  destruct (time.Equal (time.Local (hsdsVersion.LastModified w)) notAfter
            || time.Before (time.Local (hsdsVersion.LastModified w)) notAfter)
    eqn:Htest.
  - intros [= <-]. exists w. split; [left; reflexivity|]. split; [reflexivity|].
    split.
    + revert Htest. compare_instants; discriminate.
    + intros u [<-|Hu] _; [lia|].
      rewrite List.Forall_forall in Hw. apply Hw. exact Hu.
  - intros Hscan. destruct (IH Hscan) as (v & Hin & Hid & Hle & Hmax).
    exists v. split; [right; exact Hin|]. split; [exact Hid|].
    split; [exact Hle|].
    intros u [<-|Hu] Hule; [|apply Hmax; assumption].
    revert Htest. compare_instants; discriminate.
Qed.

(** What the scan returns is the identifier of one of the versions. *)
Lemma scan_versions_some vs notAfter id :
  scan_versions vs notAfter = Some id ->
  exists v, In v vs /\ hsdsVersion.ID v = id.
Proof.
  induction vs as [|u vs IH]; cbn [scan_versions]; [discriminate|].
  destruct (_ || _).
  - intros [= <-]. exists u. split; [left|]; reflexivity.
  - intros H. destruct (IH H) as (v & Hin & Hid). exists v. split; [right|]; assumption.
Qed.

Lemma lookup_last_version (vs : list hsdsVersion.t) v :
  last vs = Some v -> vs !! (length vs - 1) = Some v.
Proof.
  intros H. apply last_Some in H as [pre ->].
  rewrite length_app. cbn [length].
  replace (length pre + 1 - 1) with (length pre) by lia.
  apply list_lookup_middle. reflexivity.
Qed.

(** C4.  For a sequence of versions that is not empty and sorted with the
    newest first: without a cutoff (the zero time) the first version is
    selected; with a cutoff, the first version that was last modified at the
    cutoff or before it; and when every version is newer than the cutoff,
    the last one.  A version is selected in every case.  The order of the
    sequence makes the version selected with a cutoff the newest of those
    last modified at the cutoff or before it. *)
Theorem versionBefore_selects (vs : list hsdsVersion.t) (notAfter : time.Time) :
  vs <> [] -> newest_first vs ->
  (time.IsZero notAfter = true ->
     exists v, head vs = Some v
               /\ versionBefore vs notAfter = Returns (hsdsVersion.ID v))
  /\ (time.IsZero notAfter = false ->
      forall pre v post,
        vs = pre ++ v :: post ->
        Forall (newer_than notAfter) pre ->
        (time.instant (hsdsVersion.LastModified v) <= time.instant notAfter)%Z ->
        versionBefore vs notAfter = Returns (hsdsVersion.ID v))
  /\ (time.IsZero notAfter = false ->
      Forall (newer_than notAfter) vs ->
      exists v, last vs = Some v
                /\ versionBefore vs notAfter = Returns (hsdsVersion.ID v))
  /\ (exists v, In v vs /\ versionBefore vs notAfter = Returns (hsdsVersion.ID v))
  /\ (time.IsZero notAfter = false ->
      forall u id,
        In u vs ->
        (time.instant (hsdsVersion.LastModified u) <= time.instant notAfter)%Z ->
        versionBefore vs notAfter = Returns id ->
        exists v, In v vs /\ hsdsVersion.ID v = id
          /\ (time.instant (hsdsVersion.LastModified u)
              <= time.instant (hsdsVersion.LastModified v)
              <= time.instant notAfter)%Z).
Proof.
  intros Hne Hsorted.
  destruct vs as [|v0 vs]; [contradiction|].
  unfold versionBefore. cbn [length Nat.eqb].
  split; [|split; [|split; [|split]]].
  - intros Hz. rewrite Hz. exists v0. split; reflexivity.
  - intros Hz pre v post Heq Hpre Hv. rewrite Hz, Heq.
    rewrite (scan_versions_first _ _ _ _ Hpre Hv). reflexivity.
  - intros Hz Hall. rewrite Hz, (scan_versions_none _ _ Hall).
    destruct (last (v0 :: vs)) as [v|] eqn:Hlast.
    + exists v. split; [reflexivity|].
      apply lookup_last_version in Hlast. cbn [length] in Hlast.
      rewrite Hlast. reflexivity.
    + apply last_None in Hlast. discriminate.
  - destruct (time.IsZero notAfter).
    + exists v0. split; [left|]; reflexivity.
    + destruct (scan_versions (v0 :: vs) notAfter) as [id|] eqn:Hscan.
      * apply scan_versions_some in Hscan as (v & Hin & <-).
        exists v. split; [exact Hin | reflexivity].
      * destruct (last (v0 :: vs)) as [v|] eqn:Hlast.
        -- pose proof (lookup_last_version _ _ Hlast) as Hlk.
           cbn [length] in Hlk. rewrite Hlk.
           exists v. split; [|reflexivity].
           apply last_Some in Hlast as [pre Hpre]. rewrite Hpre.
           apply in_or_app. right. left. reflexivity.
        -- apply last_None in Hlast. discriminate.
  - intros Hz u id Hu Hule. rewrite Hz.
    destruct (scan_versions (v0 :: vs) notAfter) as [id'|] eqn:Hscan.
    + intros [= <-].
      destruct (scan_versions_newest _ _ _ Hsorted Hscan)
        as (v & Hin & Hid & Hle & Hmax).
      exists v. split; [exact Hin|]. split; [exact Hid|].
      split; [apply Hmax; assumption | exact Hle].
    + apply scan_versions_none_inv in Hscan.
      rewrite List.Forall_forall in Hscan. specialize (Hscan u Hu).
      unfold newer_than in Hscan. lia.
Qed.

Lemma versionBefore_selects_witness :
  versionBefore versions3 (at_instant 0) = Returns "V3"
  /\ versionBefore versions3 (at_instant 20) = Returns "V2"
  /\ versionBefore versions3 (at_instant 5) = Returns "V1".
Proof.
  assert (Hs : newest_first versions3).
  { repeat constructor; cbn; lia. }
  assert (Hne : versions3 <> []) by discriminate.
  destruct (versionBefore_selects versions3 (at_instant 0) Hne Hs) as (H0 & _).
  destruct (versionBefore_selects versions3 (at_instant 20) Hne Hs) as (_ & H20 & _).
  destruct (versionBefore_selects versions3 (at_instant 5) Hne Hs) as (_ & _ & H5 & _).
  split; [|split].
  - destruct (H0 eq_refl) as (v & Hv & ->). injection Hv as <-. reflexivity.
  - apply (H20 eq_refl [version "V3" 30 0] (version "V2" 20 1296)
             [version "V1" 10 7] eq_refl).
    + repeat constructor; unfold newer_than; cbn; lia.
    + cbn. lia.
  - destruct (H5 eq_refl) as (v & Hv & ->).
    + repeat constructor; unfold newer_than; cbn; lia.
    + injection Hv as <-. reflexivity.
Defined.

(** The scenario of the specification: the newer version is empty, the
    cutoff lies between the two versions, the older version is selected. *)
Example versionBefore_scenario :
  versionBefore
    [version "HikS0B1PNyvCKLO+BmagsRaAnF1sL9zL" 1000 0;
     version "U9LG1wDd4EdzQj0PtZqPvvTH9/BdzvVH" 500 1296]
    (at_instant 900)
  = Returns "U9LG1wDd4EdzQj0PtZqPvvTH9/BdzvVH".
Proof. reflexivity. Qed.

(** C6.  Called without a version, [versionBefore] panics, whatever the
    cutoff: it returns neither an error nor an identifier. *)
Theorem versionBefore_empty_panics (notAfter : time.Time) :
  versionBefore [] notAfter = Panics "versionBefore: no versions available".
Proof. reflexivity. Qed.

(** ** Path names *)

Lemma append_assoc (a b c : string) : (a +:+ b) +:+ c = a +:+ (b +:+ c).
Proof.
  induction a as [|x a IH]; [reflexivity|].
  change (String x ((a +:+ b) +:+ c) = String x (a +:+ (b +:+ c))).
  rewrite IH. reflexivity.
Qed.

Lemma split_sep_not_nil s sep : filepath.split_sep s sep <> [].
Proof.
  destruct s as [|c s]; cbn [filepath.split_sep]; [discriminate|].
  destruct (Ascii.eqb c sep); [discriminate|].
  destruct (filepath.split_sep s sep); discriminate.
Qed.

Lemma split_sep_app a b sep :
  filepath.split_sep (a +:+ String sep b) sep
  = filepath.split_sep a sep ++ filepath.split_sep b sep.
Proof.
  induction a as [|c a IH].
  - change ("" +:+ String sep b) with (String sep b).
    cbn [filepath.split_sep]. rewrite Ascii.eqb_refl. reflexivity.
  - change (String c a +:+ String sep b) with (String c (a +:+ String sep b)).
    cbn [filepath.split_sep]. rewrite IH.
    destruct (Ascii.eqb c sep); [reflexivity|].
    pose proof (split_sep_not_nil a sep) as Hne.
    destruct (filepath.split_sep a sep); [contradiction|]. reflexivity.
Qed.

Lemma split_sep_no_separator s :
  Forall (fun e => no_separator e = true) (filepath.split_sep s "/").
Proof.
  induction s as [|c s IH]; cbn [filepath.split_sep].
  - repeat constructor.
  - destruct (Ascii.eqb c "/") eqn:Hc.
    + constructor; [reflexivity | exact IH].
    + destruct (filepath.split_sep s "/") as [|h t]; [repeat constructor; cbn; rewrite Hc; reflexivity|].
      inversion IH as [|? ? Hh Ht]; subst. constructor; [|exact Ht].
      cbn [no_separator]. rewrite Hc, Hh. reflexivity.
Qed.

Lemma split_sep_plain e :
  no_separator e = true -> filepath.split_sep e "/" = [e].
Proof.
  induction e as [|c e IH]; cbn [no_separator filepath.split_sep]; [reflexivity|].
  intros H. apply andb_prop in H as [Hc He].
  apply negb_true_iff in Hc. rewrite Hc, (IH He). reflexivity.
Qed.

Lemma split_join elems :
  elems <> [] -> Forall (fun e => no_separator e = true) elems ->
  filepath.split_sep (filepath.join_sep elems "/") "/" = elems.
Proof.
  intros Hne Hall. induction Hall as [|x r Hx Hr IH]; [contradiction|].
  destruct r as [|y r].
  - apply split_sep_plain. exact Hx.
  - change (filepath.join_sep (x :: y :: r) "/")
      with (x +:+ String "/" (filepath.join_sep (y :: r) "/")).
    rewrite split_sep_app, (split_sep_plain x Hx), IH by discriminate.
    reflexivity.
Qed.

Lemma join_sep_app R E sep :
  R <> [] -> E <> [] ->
  filepath.join_sep (R ++ E) sep
  = filepath.join_sep R sep +:+ sep +:+ filepath.join_sep E sep.
Proof.
  intros HR HE. induction R as [|x R IH]; [contradiction|].
  destruct R as [|x' R].
  - destruct E as [|y E]; [contradiction|]. reflexivity.
  - change (filepath.join_sep ((x :: x' :: R) ++ E) sep)
      with (x +:+ sep +:+ filepath.join_sep ((x' :: R) ++ E) sep).
    rewrite IH by discriminate.
    change (filepath.join_sep (x :: x' :: R) sep)
      with (x +:+ sep +:+ filepath.join_sep (x' :: R) sep).
    rewrite !append_assoc. reflexivity.
Qed.

(** The text of a list of plain elements is a single character only when
    it is one element, that character. *)
Lemma join_sep_single e R c :
  e <> "" -> filepath.join_sep (e :: R) "/" = String c "" -> e = String c "".
Proof.
  intros He H. destruct e as [|c' e]; [contradiction|].
  destruct R as [|y R].
  - exact H.
  - change (String c' (e +:+ String "/" (filepath.join_sep (y :: R) "/")) = String c "") in H.
    injection H as _ H. destruct e; discriminate H.
Qed.

Lemma join_sep_not_empty e R : e <> "" -> filepath.join_sep (e :: R) "/" <> "".
Proof.
  intros He H. destruct e as [|c' e]; [contradiction|].
  destruct R as [|y R]; discriminate H.
Qed.

(** *** The scan of [Clean] *)

Lemma clean_step_ordinary rooted out e :
  ordinary e -> filepath.clean_step rooted out e = e :: out.
Proof.
  intros ((He & Hd & _) & Hdd). unfold filepath.clean_step.
  apply String.eqb_neq in He, Hd, Hdd. rewrite He, Hd, Hdd. reflexivity.
Qed.

Lemma fold_clean_ordinary rooted elems : forall out,
  Forall ordinary elems ->
  fold_left (filepath.clean_step rooted) elems out = rev elems ++ out.
Proof.
  induction elems as [|e elems IH]; intros out Hall; [reflexivity|].
  inversion Hall as [|? ? He Hrest]; subst.
  cbn [fold_left rev]. rewrite (clean_step_ordinary _ _ _ He), (IH _ Hrest).
  rewrite <- app_assoc. reflexivity.
Qed.

Lemma plain_dotdot : plain "..".
Proof. repeat split; discriminate. Qed.

Lemma clean_step_plain rooted out e :
  no_separator e = true -> Forall plain out ->
  Forall plain (filepath.clean_step rooted out e).
Proof.
  intros Hs Hout. unfold filepath.clean_step.
  destruct (String.eqb_spec e ""); [exact Hout|].
  destruct (String.eqb_spec e "."); [exact Hout|].
  destruct (String.eqb_spec e "..").
  - subst e. destruct out as [|top out'].
    + destruct rooted; [constructor|]. constructor; [apply plain_dotdot|constructor].
    + destruct (String.eqb top "..").
      * constructor; [apply plain_dotdot | exact Hout].
      * inversion Hout; assumption.
  - constructor; [|exact Hout]. repeat split; assumption.
Qed.

Lemma clean_step_rooted out e :
  no_separator e = true -> Forall ordinary out ->
  Forall ordinary (filepath.clean_step true out e).
Proof.
  intros Hs Hout. unfold filepath.clean_step.
  destruct (String.eqb_spec e ""); [exact Hout|].
  destruct (String.eqb_spec e "."); [exact Hout|].
  destruct (String.eqb_spec e "..").
  - destruct out as [|top out']; [exact Hout|].
    inversion Hout as [|? ? (_ & Htop) Hout']; subst.
    apply String.eqb_neq in Htop. rewrite Htop. exact Hout'.
  - constructor; [|exact Hout]. repeat split; assumption.
Qed.

Lemma fold_clean_plain rooted elems : forall out,
  Forall (fun e => no_separator e = true) elems -> Forall plain out ->
  Forall plain (fold_left (filepath.clean_step rooted) elems out).
Proof.
  induction elems as [|e elems IH]; intros out Hall Hout; [exact Hout|].
  inversion Hall; subst. cbn [fold_left].
  apply IH; [assumption|]. apply clean_step_plain; assumption.
Qed.

Lemma fold_clean_rooted elems : forall out,
  Forall (fun e => no_separator e = true) elems -> Forall ordinary out ->
  Forall ordinary (fold_left (filepath.clean_step true) elems out).
Proof.
  induction elems as [|e elems IH]; intros out Hall Hout; [exact Hout|].
  inversion Hall; subst. cbn [fold_left].
  apply IH; [assumption|]. apply clean_step_rooted; assumption.
Qed.

(** The elements that [Clean] keeps of a rooted path are ordinary. *)
Lemma clean_elems_ordinary name :
  Forall ordinary (filepath.clean_elems true (filepath.split_sep name "/")).
Proof.
  unfold filepath.clean_elems. apply Forall_rev.
  apply fold_clean_rooted; [apply split_sep_no_separator | constructor].
Qed.

Lemma clean_elems_plain rooted name :
  Forall plain (filepath.clean_elems rooted (filepath.split_sep name "/")).
Proof.
  unfold filepath.clean_elems. apply Forall_rev.
  apply fold_clean_plain; [apply split_sep_no_separator | constructor].
Qed.

(** A walk that stays inside the root ends at the depth that is the number
    of elements [Clean] keeps. *)
Lemma walk_clean elems : forall out n,
  Forall (fun e => no_separator e = true) elems ->
  Forall ordinary out ->
  walk (length out) elems = Some n ->
  length (fold_left (filepath.clean_step true) elems out) = n.
Proof.
  induction elems as [|e elems IH]; intros out n Hall Hout; cbn [walk fold_left].
  - intros [= <-]. reflexivity.
  - inversion Hall as [|? ? He Hrest]; subst.
    unfold filepath.clean_step.
    destruct (String.eqb_spec e ""); cbn [orb]; [apply IH; assumption|].
    destruct (String.eqb_spec e "."); [apply IH; assumption|].
    destruct (String.eqb_spec e "..").
    + destruct out as [|top out']; cbn [length]; [discriminate|].
      inversion Hout as [|? ? (_ & Htop) Hout']; subst.
      apply String.eqb_neq in Htop. rewrite Htop. apply IH; assumption.
    + intros H. apply (IH (e :: out)); [assumption| |exact H].
      constructor; [|exact Hout]. repeat split; assumption.
Qed.

Lemma resolves_to_root_clean name :
  resolves_to_root name ->
  filepath.clean_elems true (filepath.split_sep name "/") = [].
Proof.
  unfold resolves_to_root, filepath.clean_elems. intros H.
  apply (walk_clean _ [] 0 (split_sep_no_separator name)) in H; [|constructor].
  destruct (fold_left _ _ _); [reflexivity | discriminate H].
Qed.

(** *** [Clean] and [Join] on the paths of [sanitizePath] *)

(** [filepath.Join("/", name)] is the root followed by the elements that
    [Clean] keeps of [name]. *)
Lemma Join_slash name :
  filepath.Join ["/"; name]
  = "/" +:+ filepath.join_sep
              (filepath.clean_elems true (filepath.split_sep name "/")) "/".
Proof. reflexivity. Qed.

(** A rooted path of ordinary elements is clean. *)
Lemma Clean_rooted E :
  Forall ordinary E ->
  filepath.Clean ("/" +:+ filepath.join_sep E "/")
  = "/" +:+ filepath.join_sep E "/".
Proof.
  intros HE. destruct E as [|e E]; [reflexivity|].
  unfold filepath.Clean.
  change (filepath.is_rooted ("/" +:+ filepath.join_sep (e :: E) "/")) with true.
  change (filepath.split_sep ("/" +:+ filepath.join_sep (e :: E) "/") "/")
    with ("" :: filepath.split_sep (filepath.join_sep (e :: E) "/") "/").
  rewrite split_join; [|discriminate|].
  - unfold filepath.clean_elems.
    change (fold_left (filepath.clean_step true) ("" :: e :: E) [])
      with (fold_left (filepath.clean_step true) (e :: E) []).
    rewrite (fold_clean_ordinary _ _ _ HE), app_nil_r, rev_involutive.
    reflexivity.
  - eapply Forall_impl; [exact HE|]. intros x ((_ & _ & Hx) & _). exact Hx.
Qed.

(** Ordinary elements read after those of a path are kept after them. *)
Lemma clean_elems_app rooted elems E :
  Forall ordinary E ->
  filepath.clean_elems rooted (elems ++ "" :: E)
  = filepath.clean_elems rooted elems ++ E.
Proof.
  intros HE. unfold filepath.clean_elems. rewrite fold_left_app.
  change (fold_left (filepath.clean_step rooted) ("" :: E) ?x)
    with (fold_left (filepath.clean_step rooted) E x).
  rewrite (fold_clean_ordinary _ _ _ HE), rev_app_distr, rev_involutive.
  reflexivity.
Qed.

(** [Clean] in terms of the elements it keeps. *)
Lemma Clean_elems path :
  filepath.Clean path
  = let s := (if filepath.is_rooted path then "/" else "")
             +:+ filepath.join_sep
                   (filepath.clean_elems (filepath.is_rooted path)
                      (filepath.split_sep path "/")) "/" in
    if String.eqb s "" then "." else s.
Proof. reflexivity. Qed.

(** Below a root, a path of ordinary elements is joined to the cleaned
    root. *)
Lemma Join_below root E :
  E <> [] -> Forall ordinary E ->
  filepath.Join [root; "/" +:+ filepath.join_sep E "/"]
  = below root (filepath.join_sep E "/").
Proof.
  intros HEne HE.
  assert (HEs : Forall (fun e => no_separator e = true) E).
  { eapply Forall_impl; [exact HE|]. intros x ((_ & _ & Hx) & _). exact Hx. }
  assert (HJE : filepath.join_sep E "/" <> "").
  { destruct E as [|e E]; [contradiction|].
    inversion HE as [|? ? ((He & _) & _) _]; subst.
    apply join_sep_not_empty. exact He. }
  destruct root as [|c root].
  { unfold below. cbn [String.eqb].
    change (filepath.Join [""; "/" +:+ filepath.join_sep E "/"])
      with (filepath.Clean ("/" +:+ filepath.join_sep E "/")).
    apply Clean_rooted. exact HE. }
  change (filepath.Join [String c root; "/" +:+ filepath.join_sep E "/"])
    with (filepath.Clean
            (String c root +:+ String "/" (String "/" (filepath.join_sep E "/")))).
  rewrite Clean_elems.
  change (filepath.is_rooted
            (String c root +:+ String "/" (String "/" (filepath.join_sep E "/"))))
    with (filepath.is_rooted (String c root)).
  rewrite split_sep_app.
  change (filepath.split_sep (String "/" (filepath.join_sep E "/")) "/")
    with ("" :: filepath.split_sep (filepath.join_sep E "/") "/").
  rewrite (split_join E HEne HEs), (clean_elems_app _ _ _ HE).
  unfold below. cbn [String.eqb]. rewrite (Clean_elems (String c root)).
  pose proof (clean_elems_plain (filepath.is_rooted (String c root)) (String c root)) as HR.
  set (rooted := filepath.is_rooted (String c root)) in *.
  destruct (filepath.clean_elems rooted (filepath.split_sep (String c root) "/"))
    as [|r R].
  - (* the root cleans to "/" or to "." *)
    cbn [app]. cbv zeta. destruct rooted.
    + reflexivity.
    + change ("" +:+ filepath.join_sep E "/") with (filepath.join_sep E "/").
      apply String.eqb_neq in HJE. rewrite HJE. reflexivity.
  - (* the root cleans to its elements *)
    rewrite (join_sep_app (r :: R) E "/") by (assumption || discriminate).
    inversion HR as [|? ? (Hr & Hrd & Hrs) _]; subst.
    pose proof (join_sep_not_empty r R Hr) as HJ.
    pose proof (join_sep_single r R) as Hsingle.
    set (J := filepath.join_sep (r :: R) "/") in *.
    cbv zeta. destruct rooted.
    + change (String.eqb ("/" +:+ J) "") with false. cbv iota.
      change (String.eqb ("/" +:+ J +:+ "/" +:+ filepath.join_sep E "/") "") with false.
      cbv iota.
      destruct (String.eqb_spec ("/" +:+ J) "/") as [Heq|_].
      { change (String "/" J = String "/" "") in Heq. injection Heq as Heq. contradiction. }
      change (String.eqb ("/" +:+ J) ".") with false. cbv iota.
      rewrite !append_assoc. reflexivity.
    + change ("" +:+ J) with J.
      change ("" +:+ J +:+ "/" +:+ filepath.join_sep E "/")
        with (J +:+ "/" +:+ filepath.join_sep E "/").
      destruct (String.eqb_spec J "") as [Heq|_]; [contradiction|].
      destruct (String.eqb_spec (J +:+ "/" +:+ filepath.join_sep E "/") "") as [Heq|_].
      { destruct J; [contradiction | discriminate Heq]. }
      destruct (String.eqb_spec J "/") as [Heq|_].
      { apply Hsingle in Heq; [|exact Hr]. subst r. discriminate Hrs. }
      destruct (String.eqb_spec J ".") as [Heq|_].
      { apply Hsingle in Heq; [|exact Hr]. contradiction. }
      reflexivity.
Qed.

(** ** sanitizePath *)

Example sanitizePath_examples :
  map (sanitizePath "/srv") ["."; ""; "/"; ".."; "a/.."; "./"; "../.."]
    = replicate 7 ("", Some (pathError "/"))
  /\ map (sanitizePath "/srv") ["home/user/domain.h5"; "../etc/passwd"; "/a/../../b"]
     = [("/srv/home/user/domain.h5", None); ("/srv/etc/passwd", None); ("/srv/b", None)]
  /\ map (fun root => sanitizePath root "a/b") ["."; "/"; "data/"; "../out"; ""]
     = [("a/b", None); ("/a/b", None); ("data/a/b", None); ("../out/a/b", None);
        ("/a/b", None)].
Proof. repeat split; reflexivity. Qed.

(** C3, as stated, fails: a name that escapes the root is not rejected.
    [../etc/passwd] leaves the root at its first element, and
    [sanitizePath] returns a path for it without an error. *)
Lemma sanitizePath_accepts_escape :
  ~ (forall root name,
       escapes_root name \/ resolves_to_root name ->
       is_pathError (sanitizePath root name)).
Proof.
  intros H.
  destruct (H "/srv" "../etc/passwd" (or_introl eq_refl)) as [p Hp].
  discriminate Hp.
Qed.

(** C3, amended.  [sanitizePath] reads the name as rooted at the root of the
    store: empty elements and [.] are dropped, and [..] removes the element
    before it or, at the root, is dropped.  The elements that are left are
    ordinary.  When none is left, as for every name that resolves to the
    root itself, the call fails with the path error of [/]; otherwise it
    succeeds with the path of these elements below the root, also for a
    name that escapes the root. *)
Theorem sanitizePath_clamps (root name : string) :
  let elems := filepath.clean_elems true (filepath.split_sep name "/") in
  Forall ordinary elems
  /\ (resolves_to_root name -> elems = [])
  /\ sanitizePath root name
     = match elems with
       | [] => ("", Some (pathError "/"))
       | _ :: _ => (below root (filepath.join_sep elems "/"), None)
       end.
Proof.
  cbv zeta. split; [apply clean_elems_ordinary|].
  split; [apply resolves_to_root_clean|].
  unfold sanitizePath, filepath.FromSlash. rewrite Join_slash.
  pose proof (clean_elems_ordinary name) as HE.
  destruct (filepath.clean_elems true (filepath.split_sep name "/")) as [|e E].
  - reflexivity.
  - inversion HE as [|? ? ((He & _) & _) _]; subst.
    pose proof (join_sep_not_empty e E He) as HJ.
    destruct (String.eqb_spec ("/" +:+ filepath.join_sep (e :: E) "/") "/") as [Heq|_].
    { change (String "/" (filepath.join_sep (e :: E) "/") = String "/" "") in Heq.
      injection Heq as Heq. contradiction. }
    rewrite Join_below by (assumption || discriminate). reflexivity.
Qed.

Lemma sanitizePath_clamps_witness :
  resolves_to_root "a/./.."
  /\ sanitizePath "/srv" "a/./.." = ("", Some (pathError "/"))
  /\ sanitizePath "/srv" "../etc/passwd" = ("/srv/etc/passwd", None).
Proof.
  split; [reflexivity|].
  destruct (sanitizePath_clamps "/srv" "a/./..") as (_ & Hroot & Hs).
  destruct (sanitizePath_clamps "/srv" "../etc/passwd") as (_ & _ & Hs').
  split.
  - rewrite Hs, (Hroot eq_refl). reflexivity.
  - rewrite Hs'. reflexivity.
Defined.

(** ** StoreDomain *)

(** A domain one directory below the root: the directory gets its marker,
    a copy of the metadata without the root group. *)
Example StoreDomain_one_ancestor (d : hsdsDomain.t) :
  node_after (StoreDomain sampleStorer "home/domain.h5" d ∅)
    "/srv/home/domain.h5/.domain.json" = Some (Some (File [d]))
  /\ node_after (StoreDomain sampleStorer "home/domain.h5" d ∅)
    "/srv/home/.domain.json" = Some (Some (File [hsdsDomain.clear_Root d])).
Proof. split; vm_compute; reflexivity. Qed.

(** C2.  The domain [home/user/domain.h5] is stored in an empty store
    rooted at [/srv]: the call returns without an error, the document of the
    domain and the marker of [home/user] are written, the directory [home]
    is made, and no marker is written for [home], which had none. *)
Theorem StoreDomain_skips_ancestor (d : hsdsDomain.t) :
  node_after (StoreDomain sampleStorer "home/user/domain.h5" d ∅)
    "/srv/home/user/domain.h5/.domain.json" = Some (Some (File [d]))
  /\ node_after (StoreDomain sampleStorer "home/user/domain.h5" d ∅)
    "/srv/home/user/.domain.json" = Some (Some (File [hsdsDomain.clear_Root d]))
  /\ node_after (StoreDomain sampleStorer "home/user/domain.h5" d ∅)
    "/srv/home" = Some (Some Dir)
  /\ node_after (StoreDomain sampleStorer "home/user/domain.h5" d ∅)
    "/srv/home/.domain.json" = Some None.
Proof. repeat split; vm_compute; reflexivity. Qed.

(** The loop of [createParentDomains] runs over the list that
    [filepath.SplitList] makes of the directory part: one round for a name
    without a colon, however many directories it has. *)
Lemma SplitList_no_colon :
  filepath.SplitList (fst (filepath.Split "home/user/domain.h5")) = ["home/user/"]
  /\ filepath.SplitList (fst (filepath.Split "a/b/c/d/domain.h5")) = ["a/b/c/d/"].
Proof. split; reflexivity. Qed.

(** A marker that exists is left as it is: a second domain stored below
    [home/user] with other metadata does not change the marker written with
    the first. *)
Example StoreDomain_keeps_marker (d d' : hsdsDomain.t) :
  match stored (StoreDomain sampleStorer "home/user/domain.h5" d ∅) with
  | Some fs =>
      node_after (StoreDomain sampleStorer "home/user/other.h5" d' fs)
        "/srv/home/user/.domain.json"
  | None => None
  end = Some (Some (File [hsdsDomain.clear_Root d])).
Proof. vm_compute. reflexivity. Qed.

(** The domain path [.] is not rejected: no directory is made and the
    document of the domain is written at the root of the store. *)
Example StoreDomain_dot (d : hsdsDomain.t) :
  node_after (StoreDomain sampleStorer "." d {[ "/srv" := Dir ]})
    "/srv/.domain.json" = Some (Some (File [d])).
Proof. vm_compute. reflexivity. Qed.

(** * Further properties *)

(** ** What [ParseID] accepts, and with which error it rejects *)

Lemma Decode_pair p q :
  hex.Decode [p; q]
  = if is_hex_digit p && is_hex_digit q
    then ([hex.join_nibbles (hex_value p) (hex_value q)], None)
    else ([], Some (hex.InvalidByteError (if is_hex_digit p then q else p))).
Proof.
  cbn [hex.Decode].
  destruct (is_hex_digit p) eqn:Hp.
  - rewrite (fromHexChar_digit _ Hp).
    destruct (is_hex_digit q) eqn:Hq.
    + rewrite (fromHexChar_digit _ Hq). reflexivity.
    + rewrite (fromHexChar_not_digit _ Hq). reflexivity.
  - rewrite (fromHexChar_not_digit _ Hp). reflexivity.
Qed.

(** The loop runs to its end only over hexadecimal digits. *)
Lemma decode_loop_None e idx : forall i dest b dest',
  Forall (fun j => S j < length b) idx ->
  decode_loop e idx i dest b = (dest', None) ->
  Forall (fun j => hex_at b j = true) idx.
Proof.
  induction idx as [|j idx IH]; intros i dest b dest' Hlen; [constructor|].
  inversion Hlen as [|? ? Hj Hrest]; subst.
  cbn [decode_loop]. rewrite (slice_pair _ _ Hj), Decode_pair.
  fold (hex_at b j). destruct (hex_at b j) eqn:Hx; [|discriminate].
  intros H. constructor; [exact Hx|]. eapply IH; eassumption.
Qed.

(** When the loop stops early its error is the one it was given. *)
Lemma decode_loop_Some e idx : forall i dest b dest' e',
  decode_loop e idx i dest b = (dest', Some e') -> e' = e.
Proof.
  induction idx as [|j idx IH]; intros i dest b dest' e'; cbn [decode_loop];
    [discriminate|].
  destruct (hex.Decode (slice b j (j + 2))) as [out [err|]].
  - intros [= _ <-]. reflexivity.
  - apply IH.
Qed.

(** When the loop stops early, a byte that is no hexadecimal digit stands
    at an offset of the digits. *)
Lemma decode_loop_Some_digit e idx : forall i dest b dest' e',
  Forall (fun j => S j < length b) idx ->
  decode_loop e idx i dest b = (dest', Some e') ->
  Exists (fun j => hex_at b j = false) idx.
Proof.
  induction idx as [|j idx IH]; intros i dest b dest' e' Hlen;
    cbn [decode_loop]; [discriminate|].
  inversion Hlen as [|? ? Hj Hrest]; subst.
  rewrite (slice_pair _ _ Hj), Decode_pair.
  fold (hex_at b j). destruct (hex_at b j) eqn:Hx.
  - intros H. apply Exists_cons_tl. eapply IH; eassumption.
  - intros _. apply Exists_cons_hd. exact Hx.
Qed.

Lemma hex_at_digits (b : list byte) idx :
  length b = 38 -> incl idx hsdsByteIndices ->
  Forall (fun j => hex_at b j = true) idx ->
  Forall (fun j => S j < length b
                   /\ is_hex_digit (nth j b x00) = true
                   /\ is_hex_digit (nth (S j) b x00) = true) idx.
Proof.
  intros Hl Hincl Hall. rewrite List.Forall_forall in *. intros j Hj.
  specialize (Hall j Hj). unfold hex_at in Hall.
  apply andb_prop in Hall as [Hp Hq]. repeat split; try assumption.
  rewrite Hl. specialize (Hincl j Hj). unfold hsdsByteIndices in Hincl.
  cbn [In] in Hincl. lia.
Qed.

Lemma byte_offsets_in_range (b : list byte) :
  length b = 38 -> Forall (fun j => S j < length b) hsdsByteIndices.
Proof. intros ->. unfold hsdsByteIndices. repeat constructor. Qed.

(** What [UnmarshalText] returns for an accepted text. *)
Lemma UnmarshalText_accepted (id0 : hsdsID) (b : list byte) :
  length id0 = 17 -> accepted_text b ->
  hsdsID.UnmarshalText id0 b
  = (nth 0 b x00 :: map (decode_at b) hsdsByteIndices, None).
Proof.
  intros Hl0 (Hl & Hv & Hx).
  unfold hsdsID.UnmarshalText. rewrite Hl, Hv. cbn [Nat.eqb hsdsIDLen negb].
  rewrite decode_loop_digits
    by (apply hex_at_digits; [exact Hl | apply incl_refl | exact Hx]).
  do 18 (destruct id0 as [|? id0]; try discriminate Hl0).
  reflexivity.
Qed.

(** X1.  [ParseID] returns without an error exactly for the texts of 38
    bytes with a valid type byte and hexadecimal digits, in either case, at
    the 32 offsets of the digits; it then returns the type byte followed by
    the 16 bytes the digits stand for, whatever the other five bytes are. *)
Theorem ParseID_accepts_iff (s : string) :
  (snd (ParseID s) = None <-> accepted_text (bytes_of s))
  /\ (accepted_text (bytes_of s) ->
      ParseID s
      = (nth 0 (bytes_of s) x00 :: map (decode_at (bytes_of s)) hsdsByteIndices,
         None)).
Proof.
  assert (Hok : accepted_text (bytes_of s) ->
      ParseID s
      = (nth 0 (bytes_of s) x00 :: map (decode_at (bytes_of s)) hsdsByteIndices,
         None)).
  { intros Ha. unfold ParseID.
    rewrite (UnmarshalText_accepted (make 17) _ eq_refl Ha). reflexivity. }
  split; [|exact Hok]. split.
  - unfold ParseID, hsdsID.UnmarshalText, accepted_text.
    destruct (Nat.eqb_spec (length (bytes_of s)) hsdsIDLen) as [Hl|Hl];
      cbn [negb]; [|discriminate].
    destruct (hsdsEntityType.Valid (nth 0 (bytes_of s) x00)); cbn [negb];
      [|discriminate].
    destruct (decode_loop _ _ _ _ _) as [dest [e|]] eqn:Hloop; [discriminate|].
    intros _. repeat split; [exact Hl|].
    eapply decode_loop_None; [|exact Hloop].
    apply byte_offsets_in_range. exact Hl.
  - intros Ha. rewrite (Hok Ha). reflexivity.
Qed.

Lemma ParseID_accepts_iff_witness :
  ParseID "t-00FF00ff_ABCDEFab+cdef*012345/6789aB"
  = (bytes_of "t" ++ [x00; xff; x00; xff; xab; xcd; xef; xab; xcd; xef;
                      x01; x23; x45; x67; x89; xab], None).
Proof.
  destruct (ParseID_accepts_iff "t-00FF00ff_ABCDEFab+cdef*012345/6789aB")
    as (_ & H).
  rewrite H; [reflexivity|].
  repeat split; repeat constructor.
Defined.

(** X2.  The errors of [ParseID]: the format error for a text that has not
    38 bytes, and for one with a valid type byte and a byte that is no
    hexadecimal digit at an offset of the digits; the unknown-type error,
    with the first byte, for a text of 38 bytes whose type byte is not valid,
    whatever follows it.  No other error is returned. *)
Theorem ParseID_errors (s : string) (e : error) :
  snd (ParseID s) = Some e ->
  (e = errInvalidHSDSID
   /\ (length (bytes_of s) <> 38
       \/ (length (bytes_of s) = 38
           /\ hsdsEntityType.Valid (nth 0 (bytes_of s) x00) = true
           /\ Exists (fun j => hex_at (bytes_of s) j = false) hsdsByteIndices)))
  \/ (e = unknownEntityTypeError (nth 0 (bytes_of s) x00)
      /\ length (bytes_of s) = 38
      /\ hsdsEntityType.Valid (nth 0 (bytes_of s) x00) = false).
Proof.
  unfold ParseID, hsdsID.UnmarshalText.
  destruct (Nat.eqb_spec (length (bytes_of s)) hsdsIDLen) as [Hl|Hl]; cbn [negb].
  2:{ intros [= <-]. left. split; [reflexivity|]. left. exact Hl. }
  destruct (hsdsEntityType.Valid (nth 0 (bytes_of s) x00)) eqn:Hv; cbn [negb].
  2:{ intros [= <-]. right. repeat split. exact Hl. }
  destruct (decode_loop _ _ _ _ _) as [dest [e'|]] eqn:Hloop; [|discriminate].
  intros [= <-]. left.
  split; [eapply decode_loop_Some; exact Hloop|]. right.
  repeat split; [exact Hl|].
  eapply decode_loop_Some_digit; [|exact Hloop].
  apply byte_offsets_in_range. exact Hl.
Qed.

Lemma ParseID_errors_witness :
  snd (ParseID "G-d12a20a5-6c27622f-59a2-a82de4-afeaa7")
    = Some (unknownEntityTypeError "G"%byte)
  /\ hsdsEntityType.Valid
       (nth 0 (bytes_of "G-d12a20a5-6c27622f-59a2-a82de4-afeaa7") x00) = false.
Proof.
  split; [reflexivity|].
  destruct (ParseID_errors "G-d12a20a5-6c27622f-59a2-a82de4-afeaa7"
              (unknownEntityTypeError "G"%byte) eq_refl)
    as [(He & _)|(_ & _ & Hv)]; [discriminate He | exact Hv].
Defined.

(** ** Round trips of the texts *)

(** X3.  The text of a UUID of 16 bytes is parsed back to the UUID by
    [hsdsUUID.UnmarshalText], into any receiver. *)
Theorem UUID_String_roundtrip (uuid uuid0 : hsdsUUID) :
  length uuid = 16 -> length uuid0 = 16 ->
  hsdsUUID.UnmarshalText uuid0 (hsdsUUID.String uuid) = (uuid, None).
Proof.
  intros Hl Hl0.
  do 17 (destruct uuid as [|? uuid]; try discriminate Hl).
  do 17 (destruct uuid0 as [|? uuid0]; try discriminate Hl0).
  unfold hsdsUUID.UnmarshalText, hsdsUUID.String.
  cbn -[decode_loop].
  unfold hsdsUUID.uuidByteIndices.
  repeat (erewrite decode_loop_step by reflexivity).
  reflexivity.
Qed.

Lemma UUID_String_roundtrip_witness :
  hsdsUUID.UnmarshalText (make 16) (hsdsUUID.String (hsdsID.UUID validGroupID))
  = (hsdsID.UUID validGroupID, None).
Proof.
  apply (UUID_String_roundtrip (hsdsID.UUID validGroupID) (make 16));
    reflexivity.
Defined.

(** Two digits in lower case are the digits of the byte they stand for. *)
Lemma Encode_decode_digits p q :
  is_lower_hex_digit p = true -> is_lower_hex_digit q = true ->
  hex.hi (hex.join_nibbles (hex_value p) (hex_value q)) = p
  /\ hex.lo (hex.join_nibbles (hex_value p) (hex_value q)) = q.
Proof.
  intros Hp Hq.
  destruct p; try discriminate Hp; clear Hp;
    (destruct q; try discriminate Hq; split; reflexivity).
Qed.

Lemma Encode_decode_at (b : list byte) j :
  lower_hex_at b j = true ->
  hex.hi (decode_at b j) = nth j b x00
  /\ hex.lo (decode_at b j) = nth (S j) b x00.
Proof.
  unfold lower_hex_at, decode_at. intros H.
  apply andb_prop in H as [Hp Hq]. apply Encode_decode_digits; assumption.
Qed.

Lemma lower_hex_digit_hex c :
  is_lower_hex_digit c = true -> is_hex_digit c = true.
Proof.
  unfold is_lower_hex_digit, is_hex_digit. intros ->. reflexivity.
Qed.

Lemma lower_hex_at_hex (b : list byte) j :
  lower_hex_at b j = true -> hex_at b j = true.
Proof.
  unfold lower_hex_at, hex_at. intros H. apply andb_prop in H as [Hp Hq].
  rewrite (lower_hex_digit_hex _ Hp), (lower_hex_digit_hex _ Hq). reflexivity.
Qed.

Arguments decode_at : simpl never.

(** X4.  A text that [ParseID] accepts and that is written as [String]
    writes it, with dashes at the offsets 1, 10, 19, 24, 31 and its digits
    in lower case, is the text of the identifier parsed from it:
    Format(Parse(text)) = text. *)
Theorem String_ParseID_canonical (s : string) (id : hsdsID) :
  ParseID s = (id, None) ->
  Forall (fun i => nth i (bytes_of s) x00 = dash) hsdsIDDashIndeces ->
  Forall (fun j => lower_hex_at (bytes_of s) j = true) hsdsByteIndices ->
  hsdsID.MarshalText id = (bytes_of s, None).
Proof.
  intros Hparse Hd Hx.
  assert (Hacc : accepted_text (bytes_of s)).
  { assert (Hn : snd (ParseID s) = None) by (rewrite Hparse; reflexivity).
    unfold ParseID, hsdsID.UnmarshalText in Hn. unfold accepted_text.
    destruct (Nat.eqb_spec (length (bytes_of s)) hsdsIDLen) as [Hl|Hl];
      cbn [negb] in Hn; [|discriminate Hn].
    destruct (hsdsEntityType.Valid (nth 0 (bytes_of s) x00)); cbn [negb] in Hn;
      [|discriminate Hn].
    repeat split; [exact Hl|].
    eapply Forall_impl; [exact Hx|]. intros j. apply lower_hex_at_hex. }
  unfold ParseID in Hparse.
  rewrite (UnmarshalText_accepted (make 17) _ eq_refl Hacc) in Hparse.
  injection Hparse as <-.
  destruct Hacc as (Hl & Hv & _).
  unfold hsdsID.MarshalText. cbn [nth]. rewrite Hv. cbn [negb]. f_equal.
  set (b := bytes_of s) in *. clearbody b. clear s.
  unfold hsdsByteIndices, hsdsIDDashIndeces in *.
  repeat match goal with
         | H : Forall _ (_ :: _) |- _ => inversion H; clear H; subst
         | H : Forall _ [] |- _ => clear H
         end.
  repeat match goal with
         | H : lower_hex_at _ _ = true |- _ =>
             apply Encode_decode_at in H; destruct H as [? ?]
         end.
  do 39 (destruct b as [|? b]; try discriminate Hl).
  unfold hsdsID.String. cbn in *.
  repeat match goal with H : ?x = dash |- _ => subst x end.
  repeat match goal with
         | H : hex.hi _ = _ |- _ => rewrite H; clear H
         | H : hex.lo _ = _ |- _ => rewrite H; clear H
         end.
  reflexivity.
Qed.

Lemma String_ParseID_canonical_witness :
  hsdsID.MarshalText validGroupID = (bytes_of validGroupIDString, None).
Proof.
  apply (String_ParseID_canonical validGroupIDString validGroupID);
    [reflexivity | repeat constructor | repeat constructor].
Defined.

(** The digits may be written in upper case and the dashes left out: the
    text is accepted and formatted back in the one canonical form. *)
Example String_ParseID_not_canonical :
  (let '(id, _) := ParseID "gXD12A20A5X6C27622FX59A2XA82DE4XAFEAA7" in
   text_of (hsdsID.String id)) = validGroupIDString.
Proof. reflexivity. Qed.

Lemma dashes_ok_inv idx (b : list byte) :
  hsdsUUID.dashes_ok idx b = true -> Forall (fun i => nth i b x00 = dash) idx.
Proof.
  induction idx as [|k idx IH]; cbn [hsdsUUID.dashes_ok]; [constructor|].
  destruct (Byte.eqb (nth k b x00) dash) eqn:Hk; [|discriminate].
  intros H. constructor; [apply Byte.byte_dec_bl; exact Hk | apply IH; exact H].
Qed.

(** X5.  A text that [hsdsUUID.UnmarshalText] accepts, with its digits in
    lower case, is the text of the UUID parsed from it.  The dashes need no
    hypothesis: a text without them is not accepted. *)
Theorem UUID_String_UnmarshalText_canonical (uuid0 uuid : hsdsUUID) (b : list byte) :
  length uuid0 = 16 ->
  hsdsUUID.UnmarshalText uuid0 b = (uuid, None) ->
  Forall (fun j => lower_hex_at b j = true) hsdsUUID.uuidByteIndices ->
  hsdsUUID.String uuid = b.
Proof.
  intros Hl0 Hparse Hx.
  unfold hsdsUUID.UnmarshalText in Hparse.
  destruct (Nat.eqb_spec (length b) hsdsUUID.uuidLen) as [Hl|Hl];
    cbn [negb] in Hparse; [|discriminate Hparse].
  destruct (hsdsUUID.dashes_ok hsdsUUID.uuidDashIndices b) eqn:Hd;
    cbn [negb] in Hparse; [|discriminate Hparse].
  apply dashes_ok_inv in Hd.
  unfold hsdsUUID.uuidLen in Hl.
  rewrite decode_loop_digits in Hparse.
  2:{ rewrite List.Forall_forall in *. intros j Hj.
      specialize (Hx j Hj). apply lower_hex_at_hex in Hx.
      unfold hex_at in Hx. apply andb_prop in Hx as [Hp Hq].
      repeat split; try assumption.
      rewrite Hl. unfold hsdsUUID.uuidByteIndices in Hj. cbn [In] in Hj. lia. }
  do 17 (destruct uuid0 as [|? uuid0]; try discriminate Hl0).
  injection Hparse as <-.
  unfold hsdsUUID.uuidByteIndices, hsdsUUID.uuidDashIndices in *.
  repeat match goal with
         | H : Forall _ (_ :: _) |- _ => inversion H; clear H; subst
         | H : Forall _ [] |- _ => clear H
         end.
  repeat match goal with
         | H : lower_hex_at _ _ = true |- _ =>
             apply Encode_decode_at in H; destruct H as [? ?]
         end.
  do 37 (destruct b as [|? b]; try discriminate Hl).
  unfold hsdsUUID.String. cbn in *.
  repeat match goal with H : ?x = dash |- _ => subst x end.
  repeat match goal with
         | H : hex.hi _ = _ |- _ => rewrite H; clear H
         | H : hex.lo _ = _ |- _ => rewrite H; clear H
         end.
  reflexivity.
Qed.

Lemma UUID_String_UnmarshalText_canonical_witness :
  hsdsUUID.String (hsdsID.UUID validGroupID)
  = bytes_of "d12a20a5-6c27622f-59a2-a82de4-afeaa7".
Proof.
  apply (UUID_String_UnmarshalText_canonical (make 16) (hsdsID.UUID validGroupID)
           (bytes_of "d12a20a5-6c27622f-59a2-a82de4-afeaa7"));
    [reflexivity | reflexivity | repeat constructor].
Defined.

(** ** The texts and the parts of an identifier *)

(** X6.  The texts have their fixed lengths, 38, 36, 17 and 18 bytes,
    whatever value is formatted. *)
Theorem text_lengths (id : hsdsID) (uuid : hsdsUUID) (p : hsdsPrefix)
    (s : hsdsSuffix) :
  length (hsdsID.String id) = 38
  /\ length (hsdsUUID.String uuid) = 36
  /\ length (hsdsPrefix.String p) = 17
  /\ length (hsdsSuffix.String s) = 18.
Proof.
  split; [apply String_length|]. split; [|split].
  - unfold hsdsUUID.String. rewrite put_dashes_length, encode_loop_length.
    reflexivity.
  - unfold hsdsPrefix.String.
    rewrite copy_at_length, length_insert, copy_at_length. reflexivity.
  - unfold hsdsSuffix.String.
    rewrite copy_at_length, length_insert, copy_at_length, length_insert,
      copy_at_length.
    reflexivity.
Qed.

(** X7.  The parts of an identifier of 17 bytes: the UUID is the prefix
    followed by the suffix, of 8 bytes each, and the identifier is its type
    byte followed by the UUID. *)
Theorem ID_parts (id : hsdsID) :
  length id = 17 ->
  hsdsID.UUID id = hsdsID.Prefix id ++ hsdsID.Suffix id
  /\ id = hsdsID.Type_ id :: hsdsID.UUID id
  /\ length (hsdsID.Prefix id) = 8
  /\ length (hsdsID.Suffix id) = 8.
Proof.
  intros Hl.
  do 18 (destruct id as [|? id]; try discriminate Hl).
  repeat split.
Qed.

Lemma ID_parts_witness :
  hsdsID.UUID validGroupID
  = hsdsID.Prefix validGroupID ++ hsdsID.Suffix validGroupID
  /\ validGroupID = hsdsID.Type_ validGroupID :: hsdsID.UUID validGroupID
  /\ length (hsdsID.Prefix validGroupID) = 8
  /\ length (hsdsID.Suffix validGroupID) = 8.
Proof. apply (ID_parts validGroupID). reflexivity. Defined.

(** The two digits of a byte determine it. *)
Lemma hi_lo_inj v w : hex.hi v = hex.hi w -> hex.lo v = hex.lo w -> v = w.
Proof.
  intros Hh Hlo. pose proof (Decode_Encode_byte v) as Hv.
  rewrite Hh, Hlo, Decode_Encode_byte in Hv. congruence.
Qed.

(** X8.  Two identifiers of 17 bytes with the same text are equal, also
    when their type byte is not valid. *)
Theorem String_injective (id id' : hsdsID) :
  length id = 17 -> length id' = 17 ->
  hsdsID.String id = hsdsID.String id' -> id = id'.
Proof.
  intros Hl Hl' H.
  do 18 (destruct id as [|? id]; try discriminate Hl).
  do 18 (destruct id' as [|? id']; try discriminate Hl').
  unfold hsdsID.String in H. cbn in H. injection H as H.
  repeat match goal with
         | Hh : hex.hi ?v = hex.hi ?w, Hlo : hex.lo ?v = hex.lo ?w |- _ =>
             pose proof (hi_lo_inj v w Hh Hlo); subst w; clear Hh Hlo
         end.
  subst. reflexivity.
Qed.

Lemma String_injective_witness :
  hsdsID.String (fst (ParseID "gXD12A20A5X6C27622FX59A2XA82DE4XAFEAA7"))
    = hsdsID.String validGroupID
  /\ fst (ParseID "gXD12A20A5X6C27622FX59A2XA82DE4XAFEAA7") = validGroupID.
Proof.
  split; [reflexivity|].
  apply (String_injective
           (fst (ParseID "gXD12A20A5X6C27622FX59A2XA82DE4XAFEAA7")) validGroupID);
    reflexivity.
Defined.

(** X9.  [MustParseID] returns, with the identifier [ParseID] returns,
    exactly for the accepted texts; for every other text it panics with the
    format error or the unknown-type error. *)
Theorem MustParseID_panics_iff (s : string) :
  (accepted_text (bytes_of s) ->
     MustParseID s
     = inl (nth 0 (bytes_of s) x00 :: map (decode_at (bytes_of s)) hsdsByteIndices))
  /\ (~ accepted_text (bytes_of s) ->
      MustParseID s = inr errInvalidHSDSID
      \/ MustParseID s = inr (unknownEntityTypeError (nth 0 (bytes_of s) x00))).
Proof.
  unfold MustParseID, ParseID. split.
  - intros Ha. rewrite (UnmarshalText_accepted (make 17) _ eq_refl Ha).
    reflexivity.
  - intros Hna. unfold hsdsID.UnmarshalText.
    destruct (Nat.eqb_spec (length (bytes_of s)) hsdsIDLen) as [Hl|Hl];
      cbn [negb]; [|left; reflexivity].
    destruct (hsdsEntityType.Valid (nth 0 (bytes_of s) x00)) eqn:Hv;
      cbn [negb]; [|right; reflexivity].
    destruct (decode_loop _ _ _ _ _) as [dest [e|]] eqn:Hloop.
    + left. apply decode_loop_Some in Hloop. subst e. reflexivity.
    + exfalso. apply Hna. repeat split; [exact Hl | exact Hv |].
      eapply decode_loop_None; [|exact Hloop].
      apply byte_offsets_in_range. exact Hl.
Qed.

Lemma MustParseID_panics_iff_witness :
  MustParseID validGroupIDString = inl validGroupID
  /\ MustParseID "g-d12a20a5" = inr errInvalidHSDSID.
Proof.
  destruct (MustParseID_panics_iff validGroupIDString) as (Hok & _).
  destruct (MustParseID_panics_iff "g-d12a20a5") as (_ & Hbad).
  split.
  - rewrite Hok; [reflexivity|]. repeat split; repeat constructor.
  - destruct Hbad as [H|H]; [|exact H|discriminate H].
    intros (Hl & _). discriminate Hl.
Defined.

(** ** The database prefix of a domain *)

(** A path that is not rooted, made of ordinary elements, is clean. *)
Lemma Clean_ordinary E :
  E <> [] -> Forall ordinary E ->
  filepath.Clean (filepath.join_sep E "/") = filepath.join_sep E "/".
Proof.
  intros HEne HE.
  assert (HEs : Forall (fun e => no_separator e = true) E).
  { eapply Forall_impl; [exact HE|]. intros x ((_ & _ & Hx) & _). exact Hx. }
  rewrite Clean_elems, (split_join E HEne HEs).
  destruct E as [|e E]; [contradiction|].
  inversion HE as [|? ? ((He & _ & Hs) & _) _]; subst.
  pose proof (join_sep_not_empty e E He) as HJ.
  assert (Hr : filepath.is_rooted (filepath.join_sep (e :: E) "/") = false).
  { destruct e as [|c e]; [contradiction|].
    cbn [no_separator] in Hs. apply andb_prop in Hs as [Hc _].
    apply negb_true_iff in Hc.
    destruct E; exact Hc. }
  rewrite Hr. unfold filepath.clean_elems.
  rewrite (fold_clean_ordinary _ _ _ HE), app_nil_r, rev_involutive.
  cbv zeta.
  change ("" +:+ filepath.join_sep (e :: E) "/") with (filepath.join_sep (e :: E) "/").
  apply String.eqb_neq in HJ. rewrite HJ. reflexivity.
Qed.

Lemma no_separator_text_of (l : list byte) :
  Forall (fun c => c <> "/"%byte) l -> no_separator (text_of l) = true.
Proof.
  induction 1 as [|c l Hc _ IH]; [reflexivity|].
  change (text_of (c :: l)) with (String (ascii_of_byte c) (text_of l)).
  cbn [no_separator]. rewrite IH, andb_true_r.
  destruct c; try reflexivity. contradiction.
Qed.

Lemma length_text_of (l : list byte) : String.length (text_of l) = length l.
Proof.
  induction l as [|c l IH]; [reflexivity|].
  change (text_of (c :: l)) with (String (ascii_of_byte c) (text_of l)).
  cbn [String.length length]. rewrite IH. reflexivity.
Qed.

Lemma hex_digits_not_slash v : hex.hi v <> "/"%byte /\ hex.lo v <> "/"%byte.
Proof. destruct v; split; discriminate. Qed.

(** The text of a prefix is an ordinary element of a path. *)
Lemma Prefix_String_ordinary (p : hsdsPrefix) :
  length p = 8 -> ordinary (text_of (hsdsPrefix.String p)).
Proof.
  intros Hl.
  assert (Hlen : String.length (text_of (hsdsPrefix.String p)) = 17).
  { rewrite length_text_of. unfold hsdsPrefix.String.
    rewrite copy_at_length, length_insert, copy_at_length. reflexivity. }
  repeat split.
  - intros H. rewrite H in Hlen. discriminate Hlen.
  - intros H. rewrite H in Hlen. discriminate Hlen.
  - apply no_separator_text_of.
    do 9 (destruct p as [|? p]; try discriminate Hl).
    unfold hsdsPrefix.String. cbn.
    repeat constructor;
      first [apply hex_digits_not_slash | discriminate].
  - intros H. rewrite H in Hlen. discriminate Hlen.
Qed.

(** X10.  For a domain whose root is an identifier of 17 bytes, the
    database prefix is [db/] followed by the text of the prefix of the root,
    20 characters in all; for a domain without a root the call panics. *)
Theorem DatabasePrefix_root (d : hsdsDomain.t) :
  (forall root, hsdsDomain.Root d = Some root -> length root = 17 ->
     DatabasePrefix d
     = Returns ("db/" +:+ text_of (hsdsPrefix.String (hsdsID.Prefix root)))
     /\ String.length
          ("db/" +:+ text_of (hsdsPrefix.String (hsdsID.Prefix root))) = 20)
  /\ (hsdsDomain.Root d = None -> exists msg, DatabasePrefix d = Panics msg).
Proof.
  unfold DatabasePrefix, hsdsDomain_Prefix. split.
  - intros root -> Hl.
    assert (Hp : length (hsdsID.Prefix root) = 8).
    { do 18 (destruct root as [|? root]; try discriminate Hl). reflexivity. }
    pose proof (Prefix_String_ordinary _ Hp) as Ho.
    set (P := text_of (hsdsPrefix.String (hsdsID.Prefix root))) in *.
    split.
    + f_equal.
      change (path.Join ["db"; P]) with (filepath.Clean (filepath.join_sep ["db"; P] "/")).
      apply Clean_ordinary; [discriminate|].
      constructor; [repeat split; discriminate|]. constructor; [exact Ho|constructor].
    + change ("db/" +:+ P) with (String "d" (String "b" (String "/" P))).
      cbn [String.length]. unfold P. rewrite length_text_of.
      unfold hsdsPrefix.String.
      rewrite copy_at_length, length_insert, copy_at_length. reflexivity.
  - intros ->. eexists. reflexivity.
Qed.

Lemma DatabasePrefix_root_witness :
  DatabasePrefix sampleDomain = Returns "db/d12a20a5-6c27622f"
  /\ exists msg,
       DatabasePrefix (hsdsDomain.clear_Root sampleDomain) = Panics msg.
Proof.
  destruct (DatabasePrefix_root sampleDomain) as (Hroot & _).
  destruct (DatabasePrefix_root (hsdsDomain.clear_Root sampleDomain)) as (_ & Hnil).
  split.
  - destruct (Hroot validGroupID eq_refl eq_refl) as (-> & _). reflexivity.
  - apply Hnil. reflexivity.
Defined.

(** ** What the storer keeps and what it writes *)

Lemma only_adds_refl {V} (P : V -> Prop) fs : only_adds P fs fs.
Proof. split; [reflexivity|]. intros q n H1 H2. congruence. Qed.

Lemma only_adds_trans {V} (P : V -> Prop) (fs1 fs2 fs3 : gmap string V) :
  only_adds P fs1 fs2 -> only_adds P fs2 fs3 -> only_adds P fs1 fs3.
Proof.
  intros (Hs12 & Hn12) (Hs23 & Hn23). split; [etrans; eassumption|].
  intros q n H1 H3. destruct (fs2 !! q) as [n2|] eqn:H2.
  - rewrite map_subseteq_spec in Hs23. rewrite (Hs23 _ _ H2) in H3.
    injection H3 as <-. eapply Hn12; eassumption.
  - eapply Hn23; eassumption.
Qed.

Lemma only_adds_insert {V} (P : V -> Prop) (fs : gmap string V) p n :
  fs !! p = None -> P n -> only_adds P fs (<[p := n]> fs).
Proof.
  intros Hp Hn. split; [apply insert_subseteq; exact Hp|].
  intros q n' Hq Hq'. destruct (decide (p = q)) as [->|Hne].
  - rewrite lookup_insert_eq in Hq'. congruence.
  - rewrite lookup_insert_ne in Hq' by exact Hne. congruence.
Qed.

Lemma Stat_None (fs : filesystem) p : os.Stat fs p = None -> fs !! p = None.
Proof. unfold os.Stat. destruct (_ || _); [discriminate | auto]. Qed.

Lemma mkdirs_only_adds ps : forall (fs fs' : filesystem) e,
  os.mkdirs ps fs = (fs', e) -> only_adds (fun n => n = Dir) fs fs'.
Proof.
  induction ps as [|p ps IH]; intros fs fs' e; cbn [os.mkdirs].
  - intros [= <- _]. apply only_adds_refl.
  - destruct (os.Stat fs p) as [[|docs]|] eqn:Hstat.
    + apply IH.
    + intros [= <- _]. apply only_adds_refl.
    + intros H. eapply only_adds_trans; [|eapply IH; exact H].
      apply only_adds_insert; [apply Stat_None; exact Hstat | reflexivity].
Qed.

(** Opening with [O_EXCL] makes a new, empty file or changes nothing. *)
Lemma OpenFile_excl name (fs fs' : filesystem) r :
  os.OpenFile name true fs = (fs', r) ->
  (exists p, r = inl p /\ fs !! p = None /\ fs' = <[p := File []]> fs)
  \/ (exists e, r = inr e /\ fs' = fs).
Proof.
  unfold os.OpenFile.
  destruct (os.Stat fs (filepath.Dir (filepath.Clean name))) as [[|?]|];
    try (intros [= <- <-]; right; eauto; fail).
  destruct (os.Stat fs (filepath.Clean name)) as [[|?]|] eqn:Hstat;
    try (intros [= <- <-]; right; eauto; fail).
  intros [= <- <-]. left. eexists. repeat split. apply Stat_None. exact Hstat.
Qed.

(** Opening with [O_TRUNC] empties or makes the one file, which is no
    directory, or changes nothing. *)
Lemma OpenFile_trunc name (fs fs' : filesystem) r :
  os.OpenFile name false fs = (fs', r) ->
  (r = inl (filepath.Clean name)
   /\ fs !! filepath.Clean name <> Some Dir
   /\ fs' = <[filepath.Clean name := File []]> fs)
  \/ (exists e, r = inr e /\ fs' = fs).
Proof.
  unfold os.OpenFile.
  destruct (os.Stat fs (filepath.Dir (filepath.Clean name))) as [[|?]|];
    try (intros [= <- <-]; right; eauto; fail).
  destruct (os.Stat fs (filepath.Clean name)) as [[|?]|] eqn:Hstat;
    try (intros [= <- <-]; right; eauto; fail).
  - intros [= <- <-]. left. repeat split.
    unfold os.Stat in Hstat. destruct (_ || _); congruence.
  - intros [= <- <-]. left. repeat split.
    apply Stat_None in Hstat. congruence.
Qed.

Lemma json_Encode_new (fs : filesystem) p v :
  json_Encode p v (<[p := File []]> fs) = <[p := File [v]]> fs.
Proof.
  unfold json_Encode. rewrite lookup_insert_eq, insert_insert_eq. reflexivity.
Qed.

Lemma parent_loop_only_adds d parentDirs : forall dn (fs fs' : filesystem) err,
  parent_loop parentDirs dn (hsdsDomain.clear_Root d) fs = (fs', err) ->
  only_adds (dir_or_marker d) fs fs'.
Proof.
  induction parentDirs as [|subDir rest IH]; intros dn fs fs' err;
    cbn [parent_loop].
  - intros [= <- _]. apply only_adds_refl.
  - destruct (os.OpenFile _ true fs) as [fs1 r] eqn:Hopen.
    apply OpenFile_excl in Hopen
      as [(p & -> & Hp & ->)|(e & -> & ->)].
    + rewrite json_Encode_new. intros H.
      eapply only_adds_trans; [|eapply IH; exact H].
      apply only_adds_insert; [exact Hp | right; reflexivity].
    + destruct e; try (intros [= <- _]; apply only_adds_refl).
      apply IH.
Qed.

Lemma createParentDomains_adds (root name : string) (d : hsdsDomain.t)
    (fs fs' : filesystem) (err : option error) :
  createParentDomains root name d fs = (fs', err) ->
  only_adds (dir_or_marker d) fs fs'.
Proof.
  unfold createParentDomains.
  destruct (String.eqb (filepath.Clean name) ".").
  { intros [= <- _]. apply only_adds_refl. }
  destruct (sanitizePath root (filepath.Clean name)) as [dirName [e|]].
  { intros [= <- _]. apply only_adds_refl. }
  destruct (os.MkdirAll dirName fs) as [fs1 [e|]] eqn:Hmk.
  - intros [= <- _]. apply mkdirs_only_adds in Hmk.
    destruct Hmk as (Hs & Hn). split; [exact Hs|].
    intros q n H1 H2. left. eapply Hn; eassumption.
  - destruct (filepath.Split (filepath.Clean name)) as [parentDir file].
    intros H. apply mkdirs_only_adds in Hmk.
    eapply only_adds_trans; [|eapply parent_loop_only_adds; exact H].
    destruct Hmk as (Hs & Hn). split; [exact Hs|].
    intros q n H1 H2. left. eapply Hn; eassumption.
Qed.



(** X12.  When [StoreDomain] returns without an error, the document of the
    domain holds the metadata of the domain and nothing else; every other
    entry that existed is as it was, and every other entry that is new is a
    directory or a marker with the root cleared. *)
Theorem StoreDomain_writes (s : filesystemHSDSStorer.t) (name : string)
    (d : hsdsDomain.t) (fs fs' : filesystem) :
  StoreDomain s name d fs = Returns (fs', None) ->
  let target := domain_document (filesystemHSDSStorer.Root s) name in
  fs' !! target = Some (File [d])
  /\ (forall q n, q <> target -> fs !! q = Some n -> fs' !! q = Some n)
  /\ (forall q n, q <> target -> fs !! q = None -> fs' !! q = Some n ->
        n = Dir \/ n = File [hsdsDomain.clear_Root d]).
Proof.
  unfold StoreDomain, domain_document, openForWriting.
  destruct (createParentDomains _ name d fs) as [fs1 [e|]] eqn:Hcp;
    [discriminate|].
  apply createParentDomains_adds in Hcp as (Hs & Hn).
  rewrite map_subseteq_spec in Hs.
  destruct (sanitizePath _ (filepath.Join [name; ".domain.json"]))
    as [nm [e|]]; [discriminate|].
  destruct (os.OpenFile nm false fs1) as [fs2 r] eqn:Hopen.
  apply OpenFile_trunc in Hopen as [(-> & _ & ->)|(e & -> & _)];
    [|discriminate].
  rewrite json_Encode_new. intros [= <-]. cbn [fst]. cbv zeta.
  split; [apply lookup_insert_eq|]. split.
  - intros q n Hq H. rewrite lookup_insert_ne by congruence. apply Hs. exact H.
  - intros q n Hq H H'. rewrite lookup_insert_ne in H' by congruence.
    eapply Hn; eassumption.
Qed.

Lemma StoreDomain_writes_witness :
  domain_store_after !! domain_document "/srv" "home/domain.h5"
  = Some (File [sampleDomain]).
Proof.
  assert (Hrun : StoreDomain sampleStorer "home/domain.h5" sampleDomain ∅
                 = Returns (domain_store_after, None))
    by (vm_compute; reflexivity).
  pose proof (StoreDomain_writes _ _ _ _ _ Hrun) as Hw.
  cbv zeta in Hw. destruct Hw as (Hdoc & _). exact Hdoc.
Defined.

(** X13.  [openForWriting] changes at most one entry, the file it returns,
    which it leaves empty; when it returns an error nothing is changed, and
    for a name that resolves to the root of the store the error is the path
    error. *)
Theorem openForWriting_truncates (root name : string) (fs fs' : filesystem)
    (r : string + error) :
  openForWriting root name fs = (fs', r) ->
  match r with
  | inl f =>
      fs' !! f = Some (File [])
      /\ fs !! f <> Some Dir
      /\ forall q, q <> f -> fs' !! q = fs !! q
  | inr e =>
      fs' = fs
      /\ (filepath.clean_elems true (filepath.split_sep name "/") = [] ->
          e = pathError "/")
  end.
Proof.
  unfold openForWriting, sanitizePath, filepath.FromSlash.
  rewrite Join_slash.
  destruct (filepath.clean_elems true (filepath.split_sep name "/")) as [|x E].
  { intros [= <- <-]. split; reflexivity. }
  destruct (String.eqb _ "/").
  { intros [= <- <-]. split; [reflexivity | discriminate]. }
  intros Hopen.
  apply OpenFile_trunc in Hopen as [(-> & Hnd & ->)|(e & -> & ->)].
  - split; [apply lookup_insert_eq|]. split; [exact Hnd|].
    intros q Hq. apply lookup_insert_ne. congruence.
  - split; [reflexivity | discriminate].
Qed.

Lemma openForWriting_truncates_witness :
  document_store_after !! "/srv/a.json" = Some (File [])
  /\ document_store_after !! "/srv" = Some Dir.
Proof.
  assert (Hrun : openForWriting "/srv" "a.json" document_store
                 = (document_store_after, inl "/srv/a.json"))
    by (vm_compute; reflexivity).
  destruct (openForWriting_truncates _ _ _ _ _ Hrun) as (Hf & _ & Hother).
  split; [exact Hf|].
  rewrite Hother by discriminate. vm_compute. reflexivity.
Defined.

(** ** The versions loaded for a domain *)

Lemma collect_versions_fold l : forall (acc : gmap string (list hsdsVersion.t)) key,
  fold_left
    (fun versions version =>
       let key := ObjectVersion.Key version in
       let vv := match versions !! key with
                 | Some vv => vv
                 | None => []
                 end in
       <[key := vv ++ [version_of version]]> versions) l acc !! key
  = match acc !! key, versions_of key l with
    | None, [] => None
    | Some vv, new => Some (vv ++ new)
    | None, new => Some new
    end.
Proof.
  unfold versions_of.
  induction l as [|ov l IH]; intros acc key; cbn [fold_left List.filter map].
  - destruct (acc !! key); [rewrite app_nil_r|]; reflexivity.
  - rewrite IH. cbv zeta.
    destruct (String.eqb_spec (ObjectVersion.Key ov) key) as [->|Hne].
    + rewrite lookup_insert_eq. cbn [map].
      destruct (acc !! key) as [vv|]; [rewrite <- app_assoc|]; reflexivity.
    + rewrite lookup_insert_ne by exact Hne. reflexivity.
Qed.

Lemma collect_versions_lookup output key :
  collect_versions output !! key
  = match versions_of key output with
    | [] => None
    | new => Some new
    end.
Proof.
  unfold collect_versions. rewrite collect_versions_fold, lookup_empty.
  destruct (versions_of key output); reflexivity.
Qed.

Lemma versions_of_In key output v :
  In v (versions_of key output) ->
  exists ov, In ov output /\ ObjectVersion.Key ov = key /\ v = version_of ov.
Proof.
  unfold versions_of. rewrite in_map_iff.
  intros (ov & <- & Hin). apply filter_In in Hin as (Hin & Hk).
  apply String.eqb_eq in Hk. eauto.
Qed.

(** A version is selected from every sequence that is not empty. *)
Lemma versionBefore_returns vs notAfter :
  vs <> [] ->
  exists v, In v vs /\ versionBefore vs notAfter = Returns (hsdsVersion.ID v).
Proof.
  intros Hne. destruct vs as [|v0 vs]; [contradiction|].
  unfold versionBefore. cbn [length Nat.eqb].
  destruct (time.IsZero notAfter).
  - exists v0. split; [left|]; reflexivity.
  - destruct (scan_versions (v0 :: vs) notAfter) as [id|] eqn:Hscan.
    + apply scan_versions_some in Hscan as (v & Hin & <-).
      exists v. split; [exact Hin | reflexivity].
    + destruct (last (v0 :: vs)) as [v|] eqn:Hlast.
      * pose proof (lookup_last_version _ _ Hlast) as Hlk.
        cbn [length] in Hlk. rewrite Hlk.
        exists v. split; [|reflexivity].
        apply last_Some in Hlast as [pre Hpre]. rewrite Hpre.
        apply in_or_app. right. left. reflexivity.
      * apply last_None in Hlast. discriminate.
Qed.

Lemma insert_sorted_permutes less v l : insert_sorted less v l ≡ₚ v :: l.
Proof.
  induction l as [|w l IH]; cbn [insert_sorted]; [reflexivity|].
  destruct (less w v); [|reflexivity].
  rewrite IH. apply Permutation_swap.
Qed.

Lemma insertion_sort_permutes less l : insertion_sort less l ≡ₚ l.
Proof.
  induction l as [|v l IH]; cbn [insertion_sort fold_right]; [reflexivity|].
  fold (insertion_sort less l). rewrite insert_sorted_permutes, IH. reflexivity.
Qed.

Lemma newer_false_trans a b c :
  newer b a = false -> newer c b = false -> newer c a = false.
Proof.
  unfold newer, time_After. rewrite !Z.ltb_ge. lia.
Qed.

Lemma insert_sorted_sorts v l :
  StronglySorted (fun a b => newer b a = false) l ->
  StronglySorted (fun a b => newer b a = false) (insert_sorted newer v l).
Proof.
  induction 1 as [|w l Hs IH Hw]; cbn [insert_sorted].
  - repeat constructor.
  - destruct (newer w v) eqn:Hwv.
    + constructor; [exact IH|].
      rewrite insert_sorted_permutes. constructor; [|exact Hw].
      unfold newer, time_After in *. rewrite Z.ltb_ge. apply Z.ltb_lt in Hwv. lia.
    + constructor; [constructor; assumption|].
      constructor; [exact Hwv|].
      eapply Forall_impl; [exact Hw|]. cbn. intros x Hx.
      eapply newer_false_trans; eassumption.
Qed.

Lemma insertion_sort_sorts l :
  StronglySorted (fun a b => newer b a = false) (insertion_sort newer l).
Proof.
  induction l as [|v l IH]; cbn [insertion_sort fold_right]; [constructor|].
  apply insert_sorted_sorts. exact IH.
Qed.

Lemma sorted_newest_first l :
  StronglySorted (fun a b => newer b a = false) l -> newest_first l.
Proof.
  unfold newest_first. induction 1 as [|w l Hs IH Hw]; constructor; [exact IH|].
  eapply Forall_impl; [exact Hw|]. cbn. intros x.
  unfold newer, time_After. rewrite Z.ltb_ge. auto.
Qed.

(** X14.  [LoadDomainVersions] maps a key exactly when the answer lists a
    version for it, to the versions listed for that key, each once, sorted
    with the newest first; no key is mapped to an empty sequence. *)
Theorem LoadDomainVersions_groups
    (sort_Slice : (hsdsVersion.t -> hsdsVersion.t -> bool) ->
                  list hsdsVersion.t -> list hsdsVersion.t)
    (output : list ObjectVersion.t) (key : string) :
  (forall less l, sort_Slice less l ≡ₚ l) ->
  (forall l, StronglySorted (fun a b => newer b a = false) (sort_Slice newer l)) ->
  match LoadDomainVersions sort_Slice output !! key with
  | None => versions_of key output = []
  | Some vv => vv <> [] /\ vv ≡ₚ versions_of key output /\ newest_first vv
  end.
Proof.
  intros Hperm Hsort. unfold LoadDomainVersions.
  rewrite lookup_fmap, collect_versions_lookup.
  destruct (versions_of key output) as [|v new] eqn:Hv; cbn [fmap option_fmap option_map].
  - reflexivity.
  - split; [|split].
    + intros H. pose proof (Hperm newer (v :: new)) as Hp. rewrite H in Hp.
      apply Permutation_nil_l in Hp. discriminate Hp.
    + apply Hperm.
    + apply sorted_newest_first, Hsort.
Qed.

Lemma LoadDomainVersions_groups_witness :
  LoadDomainVersions insertion_sort sample_output !! "db/x/0"
    = Some [version_of {| ObjectVersion.Key := "db/x/0"; ObjectVersion.VersionId := "HikS";
                          ObjectVersion.LastModified := at_instant 1000;
                          ObjectVersion.Size := 0 |};
            version_of {| ObjectVersion.Key := "db/x/0"; ObjectVersion.VersionId := "U9LG";
                          ObjectVersion.LastModified := at_instant 500;
                          ObjectVersion.Size := 1296 |}]
  /\ versions_of "db/y" sample_output = [].
Proof.
  pose proof (LoadDomainVersions_groups insertion_sort sample_output "db/y"
                insertion_sort_permutes insertion_sort_sorts) as Hy.
  split; [vm_compute; reflexivity|].
  replace (LoadDomainVersions insertion_sort sample_output !! "db/y")
    with (@None (list hsdsVersion.t)) in Hy by (vm_compute; reflexivity).
  exact Hy.
Defined.

(** X15.  From the sequence loaded for a key, [versionBefore] never panics:
    for every cutoff it returns the identifier of a version the answer lists
    for that very key. *)
Theorem versionBefore_LoadDomainVersions
    (sort_Slice : (hsdsVersion.t -> hsdsVersion.t -> bool) ->
                  list hsdsVersion.t -> list hsdsVersion.t)
    (output : list ObjectVersion.t) (key : string) (vv : list hsdsVersion.t)
    (notAfter : time.Time) :
  (forall less l, sort_Slice less l ≡ₚ l) ->
  LoadDomainVersions sort_Slice output !! key = Some vv ->
  exists version,
    In version output
    /\ ObjectVersion.Key version = key
    /\ versionBefore vv notAfter = Returns (ObjectVersion.VersionId version).
Proof.
  intros Hperm. unfold LoadDomainVersions.
  rewrite lookup_fmap, collect_versions_lookup.
  destruct (versions_of key output) as [|v new] eqn:Hv;
    cbn [fmap option_fmap option_map]; [discriminate|].
  intros [= <-].
  destruct (versionBefore_returns (sort_Slice newer (v :: new)) notAfter)
    as (w & Hin & Hret).
  { intros H. pose proof (Hperm newer (v :: new)) as Hp. rewrite H in Hp.
    apply Permutation_nil_l in Hp. discriminate Hp. }
  apply list_elem_of_In in Hin. rewrite (Hperm newer (v :: new)) in Hin.
  apply list_elem_of_In in Hin. rewrite <- Hv in Hin.
  apply versions_of_In in Hin as (ov & Hov & Hk & ->).
  exists ov. repeat split; assumption.
Qed.

Lemma versionBefore_LoadDomainVersions_witness :
  exists version,
    In version sample_output
    /\ ObjectVersion.Key version = "db/x/0"
    /\ versionBefore
         (default [] (LoadDomainVersions insertion_sort sample_output !! "db/x/0"))
         (at_instant 900)
       = Returns (ObjectVersion.VersionId version).
Proof.
  apply (versionBefore_LoadDomainVersions insertion_sort sample_output "db/x/0");
    [apply insertion_sort_permutes | vm_compute; reflexivity].
Defined.

(** ** Storing an object *)

Lemma osb_Stat_None (fs : object_store) p : osb.Stat fs p = None -> fs !! p = None.
Proof. unfold osb.Stat. destruct (_ || _); [discriminate | auto]. Qed.

Lemma osb_mkdirs_only_adds ps : forall (fs fs' : object_store) e,
  osb.mkdirs ps fs = (fs', e) -> only_adds (fun n => n = Directory) fs fs'.
Proof.
  induction ps as [|p ps IH]; intros fs fs' e; cbn [osb.mkdirs].
  - intros [= <- _]. apply only_adds_refl.
  - destruct (osb.Stat fs p) as [[|data]|] eqn:Hstat.
    + apply IH.
    + intros [= <- _]. apply only_adds_refl.
    + intros H. eapply only_adds_trans; [|eapply IH; exact H].
      apply only_adds_insert; [apply osb_Stat_None; exact Hstat | reflexivity].
Qed.

Lemma osb_OpenFile_trunc name (fs fs' : object_store) r :
  osb.OpenFile name fs = (fs', r) ->
  (r = inl (filepath.Clean name)
   /\ fs !! filepath.Clean name <> Some Directory
   /\ fs' = <[filepath.Clean name := Bytes []]> fs)
  \/ (exists e, r = inr e /\ fs' = fs).
Proof.
  unfold osb.OpenFile.
  destruct (osb.Stat fs (filepath.Dir (filepath.Clean name))) as [[|?]|];
    try (intros [= <- <-]; right; eauto; fail).
  destruct (osb.Stat fs (filepath.Clean name)) as [[|?]|] eqn:Hstat;
    try (intros [= <- <-]; right; eauto; fail).
  - intros [= <- <-]. left. repeat split.
    unfold osb.Stat in Hstat. destruct (_ || _); congruence.
  - intros [= <- <-]. left. repeat split.
    apply osb_Stat_None in Hstat. congruence.
Qed.

(** X16.  [StoreObject] never changes or removes an entry other than the
    file of the object, whatever it returns, and what it adds beside that
    file are directories.  When it returns without an error the file holds
    the data and nothing else, also when the file existed; it is then no
    directory that the file replaces. *)
Theorem StoreObject_writes (s : filesystemHSDSStorer.t) (name : string)
    (data : list byte) (fs fs' : object_store) (err : option error) :
  StoreObject s name data fs = (fs', err) ->
  let target := object_file (filesystemHSDSStorer.Root s) name in
  (forall q n, q <> target -> fs !! q = Some n -> fs' !! q = Some n)
  /\ (forall q n, q <> target -> fs !! q = None -> fs' !! q = Some n ->
        n = Directory)
  /\ (err = None ->
      fs' !! target = Some (Bytes data) /\ fs !! target <> Some Directory).
Proof.
  unfold StoreObject, object_file, openForWriting_object.
  destruct (sanitizePath _ name) as [nm [e|]]; cbn [fst].
  { intros [= <- <-]. cbv zeta. repeat split; try congruence; discriminate. }
  destruct (filepath.Split nm) as [dir file].
  destruct (osb.MkdirAll dir fs) as [fs1 [e|]] eqn:Hmk;
    apply osb_mkdirs_only_adds in Hmk as (Hs & Hn);
    rewrite map_subseteq_spec in Hs.
  { intros [= <- <-]. cbv zeta. repeat split; try discriminate.
    - intros q n _. apply Hs.
    - intros q n _. apply Hn. }
  destruct (osb.OpenFile nm fs1) as [fs2 r] eqn:Hopen.
  apply osb_OpenFile_trunc in Hopen as [(-> & Hnd & ->)|(e & -> & ->)].
  - unfold osb.Write. rewrite lookup_insert_eq, insert_insert_eq.
    intros [= <- <-]. cbv zeta. split; [|split].
    + intros q n Hq H. rewrite lookup_insert_ne by congruence. apply Hs. exact H.
    + intros q n Hq H H'. rewrite lookup_insert_ne in H' by congruence.
      eapply Hn; eassumption.
    + intros _. split; [apply lookup_insert_eq|].
      intros H. apply Hs in H. contradiction.
  - intros [= <- <-]. cbv zeta. repeat split; try discriminate.
    + intros q n _. apply Hs.
    + intros q n _. apply Hn.
Qed.

Lemma StoreObject_writes_witness :
  object_store_after !! "/srv/db/e32b60a5-6c27622f/d/693e-302825-f8c087/0"
    = Some (Bytes (bytes_of "second"))
  /\ object_store_after !! "/srv/db/e32b60a5-6c27622f/d" = Some Directory.
Proof.
  assert (Hrun : StoreObject sampleStorer
                   "db/e32b60a5-6c27622f/d/693e-302825-f8c087/0"
                   (bytes_of "second") object_store_before
                 = (object_store_after, None))
    by (vm_compute; reflexivity).
  pose proof (StoreObject_writes _ _ _ _ _ _ Hrun) as Hw. cbv zeta in Hw.
  destruct Hw as (Hkeep & _ & Hdata).
  split.
  - destruct (Hdata eq_refl) as (H & _). exact H.
  - apply Hkeep; [vm_compute; discriminate | vm_compute; reflexivity].
Defined.





(** ** The markers of the parent directories *)






